(** * DebtGuardian: the retry wrapper, the extraction client and the
      resumable commit driver of [main.py], embedded in Rocq.

    The Python program is modelled by state passing.  The effects of the
    script (backend requests, console output, [time.sleep], the files holding
    the debt stores) are fields of a [World]; Python exceptions are the
    [Raise] results of a state-and-error monad.  The collaborators that are
    not part of the script (the language-model backend, guardrails' [Guard],
    [textwrap.fill]) are variables of the section that holds the program.
    Strings are byte strings; the classes [\d] and [\s] of the regular
    expression are taken on ASCII, so the statements about the delay of a
    message are for messages of ASCII characters.  A file of the disk holds
    a JSON object; opening a file for writing can be refused by the file
    system, and the death of the process in the middle of a write is not
    modelled. *)

From Stdlib Require Import ZArith NArith QArith String Ascii List DecimalString
  DecimalN.
From stdpp Require Import base gmap strings list fin_maps.

Local Open Scope string_scope.
Local Open Scope list_scope.

(** ** Text *)

Module Text.

Definition chr (n : nat) : string := String (ascii_of_nat n) EmptyString.

(** The line feed of the ["\n"] literals. *)
Definition nl : string := chr 10.

(** Python's [needle in hay] on [str]. *)
Fixpoint str_in (needle hay : string) : bool :=
  if String.prefix needle hay then true
  else match hay with
       | EmptyString => false
       | String _ rest => str_in needle rest
       end.

(** [char * length]. *)
Fixpoint repeat_str (char : string) (length : nat) : string :=
  match length with
  | O => EmptyString
  | S k => char +:+ repeat_str char k
  end.

Definition is_digit (c : ascii) : bool :=
  let n := nat_of_ascii c in (48 <=? n)%nat && (n <=? 57)%nat.

(** The blanks that [\s] accepts among the first 128 code points. *)
Definition is_space (c : ascii) : bool :=
  let n := nat_of_ascii c in
  ((9 <=? n)%nat && (n <=? 13)%nat) || ((28 <=? n)%nat && (n <=? 32)%nat).

(** Longest prefix whose characters satisfy [p], and what follows it. *)
Fixpoint span (p : ascii -> bool) (s : string) : string * string :=
  match s with
  | EmptyString => (EmptyString, EmptyString)
  | String c rest =>
      if p c then let '(a, b) := span p rest in (String c a, b)
      else (EmptyString, s)
  end.

(** [(\d+)\s+seconds?] anchored at the start of [s]; the result is group 1.
    The greedy [\d+] can only stop at the end of the run of digits (a blank
    has to follow), and the optional final [s] never decides the match. *)
Definition match_seconds_here (s : string) : option string :=
  let '(digits, r) := span is_digit s in
  match digits with
  | EmptyString => None
  | _ =>
      let '(blanks, r') := span is_space r in
      match blanks with
      | EmptyString => None
      | _ => if String.prefix "second" r' then Some digits else None
      end
  end.

(** [re.search(r'(\d+)\s+seconds?', s)]: the leftmost match, as group 1. *)
Fixpoint search_seconds (s : string) : option string :=
  match match_seconds_here s with
  | Some g => Some g
  | None => match s with
            | EmptyString => None
            | String _ rest => search_seconds rest
            end
  end.

(** [int(digits)] for a string of decimal digits. *)
Definition int_of_digits (digits : string) : N :=
  fold_left (fun acc c => (10 * acc + N.of_nat (nat_of_ascii c - 48))%N)
            (list_ascii_of_string digits) 0%N.

(** [str(n)] for a natural number. *)
Definition str_of_N (n : N) : string := NilZero.string_of_uint (N.to_uint n).

(** The character class of [url_to_filename]: backslash, slash, star,
    question mark, double quote, angle brackets, bar and colon. *)
Definition invalid_filename_char (c : ascii) : bool :=
  existsb (Nat.eqb (nat_of_ascii c)) [92; 47; 42; 63; 34; 60; 62; 124; 58]%nat.

Fixpoint map_chars (f : ascii -> ascii) (s : string) : string :=
  match s with
  | EmptyString => EmptyString
  | String c rest => String (f c) (map_chars f rest)
  end.

(** [p.rfind(c)]: index of the last [c], or -1. *)
Fixpoint rfind_from (c : ascii) (s : string) (i : Z) (found : Z) : Z :=
  match s with
  | EmptyString => found
  | String d rest =>
      rfind_from c rest (i + 1) (if Ascii.eqb d c then i else found)
  end.

Definition rfind (c : ascii) (s : string) : Z := rfind_from c s 0 (-1).

(** [p[i:]] for [0 <= i]. *)
Definition drop_str (i : Z) (s : string) : string :=
  String.substring (Z.to_nat i) (String.length s - Z.to_nat i) s.

(** The [while] loop of [genericpath._splitext]: is there, from
    [filenameIndex] up to [dotIndex], a character that is not a dot? *)
Fixpoint splitext_scan (p : string) (filenameIndex : Z) (steps : nat) : bool :=
  match steps with
  | O => false
  | S k =>
      match String.get (Z.to_nat filenameIndex) p with
      | Some c =>
          if Ascii.eqb c "." then splitext_scan p (filenameIndex + 1) k
          else true
      | None => true
      end
  end.

(** The extension returned by [os.path.splitext] (POSIX: separator [/]). *)
Definition splitext_ext (p : string) : string :=
  let sepIndex := rfind "/" p in
  let dotIndex := rfind "." p in
  if (sepIndex <? dotIndex)%Z
  then if splitext_scan p (sepIndex + 1) (Z.to_nat (dotIndex - (sepIndex + 1)))
       then drop_str dotIndex p
       else EmptyString
  else EmptyString.

End Text.

(** ** Python values *)

(** The JSON-like values of the debt dictionaries ([dict], [list], [str],
    numbers, [bool], [None]); a dictionary keeps the order of its keys. *)
#[warnings="-register-all"]
Inductive value : Type :=
| VNone
| VBool (b : bool)
| VInt (z : Z)
| VFloat (q : Q)
| VStr (s : string)
| VList (items : list value)
| VDict (items : list (string * value)).

(** Python's truth value, the test of [debts[commit.hash]]. *)
Definition truthy (v : value) : bool :=
  match v with
  | VNone => false
  | VBool b => b
  | VInt z => negb (z =? 0)%Z
  | VFloat q => negb (Qeq_bool q 0)
  | VStr EmptyString => false
  | VStr _ => true
  | VList [] => false
  | VList _ => true
  | VDict [] => false
  | VDict _ => true
  end.

(** [d[k] = v] on a dictionary: the key keeps its place, a new key goes last. *)
Fixpoint dict_set (k : string) (v : value) (d : list (string * value))
  : list (string * value) :=
  match d with
  | [] => [(k, v)]
  | (k', v') :: rest =>
      if String.eqb k' k then (k', v) :: rest else (k', v') :: dict_set k v rest
  end.

Fixpoint dict_get (k : string) (d : list (string * value)) : option value :=
  match d with
  | [] => None
  | (k', v') :: rest => if String.eqb k' k then Some v' else dict_get k rest
  end.

(** The debt store: commit hash to enriched result. *)
Abbreviation Store := (gmap string value).

(** ** Exceptions and the monad *)

Inductive exn : Type :=
| InvalidRequestError (msg : string)      (* openai.error.InvalidRequestError *)
| BackendError (cls : string) (msg : string)  (* any other Exception of the call *)
| UnboundLocalError (msg : string)
| TypeError (msg : string)
| Exception (msg : string)
| OSError (msg : string).

(** [str(e)]. *)
Definition str_exn (e : exn) : string :=
  match e with
  | InvalidRequestError msg | BackendError _ msg | UnboundLocalError msg
  | TypeError msg | Exception msg | OSError msg => msg
  end.

Inductive res (A : Type) : Type :=
| Ok (a : A)
| Raise (e : exn).
Arguments Ok {A} a.
Arguments Raise {A} e.

(** A computation on a state [S] that returns or raises; the state survives
    a raise, as the effects done before a Python exception do. *)
Definition M (S A : Type) : Type := S -> res A * S.

#[global] Instance M_ret {S} : MRet (M S) := fun A a s => (Ok a, s).

#[global] Instance M_bind {S} : MBind (M S) := fun A B f m s =>
  match m s with
  | (Ok a, s') => f a s'
  | (Raise e, s') => (Raise e, s')
  end.

Definition raise {S A} (e : exn) : M S A := fun s => (Raise e, s).

(** [try: m] with the outcome handed to the [except] clauses. *)
Definition try_ {S A} (m : M S A) : M S (res A) := fun s =>
  let '(r, s') := m s in (Ok r, s').

(** How the body of a loop (or of a [try]) ends when it does not raise. *)
Inductive flow (A : Type) : Type :=
| Normal
| Return (a : A)
| Break.
Arguments Normal {A}.
Arguments Return {A} a.
Arguments Break {A}.

(** ** The world *)

(** What the backend returns: the response object, as a value ([VNone] is
    Python's [None]). *)
Abbreviation Response := value.

(** The keyword arguments of [openai.ChatCompletion.create]. *)
Record Request : Type := {
  engine : string;
  payload : value;
  temperature : Q;
  max_tokens : Z;
  top_p : option Q;
  frequency_penalty : option Q;
  presence_penalty : option Q;
}.

(** What [print] is given. *)
Inductive out : Type :=
| OStr (s : string)
| ONum (n : N)
| ODict (d : list (string * value)).

Record World : Type := {
  requests : list Request;   (* the calls of [create], oldest first *)
  console : list out;        (* what was printed, oldest first *)
  sleeps : list N;           (* the [time.sleep] calls, oldest first *)
  disk : gmap string Store;  (* the JSON files: name to the object they hold *)
}.

(** [print], as a line added to the console.  The script's [print] is the
    one of rich; its reading of square brackets as markup is not modelled. *)
Definition print (o : out) : M World unit := fun w =>
  (Ok tt, {| requests := requests w; console := console w ++ [o];
             sleeps := sleeps w; disk := disk w |}).

(** [time.sleep(seconds)] for an integer within the range of its clock. *)
Definition time_sleep (seconds : N) : M World unit := fun w =>
  (Ok tt, {| requests := requests w; console := console w;
             sleeps := sleeps w ++ [seconds]; disk := disk w |}).

(** [json.dump(store, file, indent=4)] on the file that [open(name, 'w')]
    has opened: the file now holds [store] and nothing else. *)
Definition write_json (name : string) (store : Store) : M World unit := fun w =>
  (Ok tt, {| requests := requests w; console := console w;
             sleeps := sleeps w; disk := <[name := store]> (disk w) |}).

Definition log_request (req : Request) (w : World) : World :=
  {| requests := requests w ++ [req]; console := console w;
     sleeps := sleeps w; disk := disk w |}.

(** ** The guard of guardrails *)

(** A guard is called with an LLM callable and decides, from what the callable
    returns or raises, whether to call it again (a retry of its own, the
    corrective re-ask) or to finish, with a result or with an exception of
    its own.  Its behaviour is a finite plan: every run of a guard makes
    finitely many calls.  The plan is what the guard does with its callable;
    what else a guard may do while it runs (waiting between its retries,
    logging) is not recorded in the world, and no statement below is about
    it. *)
Inductive GuardPlan : Type :=
| Validated (raw_llm_output : option string)
            (validated_output : option (list (string * value)))
| GuardRaises (e : exn)
| CallLLM (req : Request) (next : res value -> GuardPlan).

(** [guard(llm_api, prompt_params=..., engine=..., max_tokens=...,
    temperature=...)], before the callable is chosen. *)
Definition Guard : Type :=
  list (string * string) -> string -> Z -> Q -> GuardPlan.

Fixpoint run_guard {S} (llm_api : Request -> M S value) (plan : GuardPlan)
  : M S (option string * option (list (string * value))) :=
  match plan with
  | Validated raw_llm_output validated_output =>
      mret (raw_llm_output, validated_output)
  | GuardRaises e => raise e
  | CallLLM req next => r ← try_ (llm_api req); run_guard llm_api (next r)
  end.

(** ** The repository, as the traversal collaborator yields it *)

Record ModifiedFile : Type := {
  new_path : string;
  source_code : option string;   (* [None] for a deleted file *)
}.

Record Commit : Type := {
  hash : string;
  modified_files : list ModifiedFile;
}.

(** The local variable [debts] of [main] and the world around it. *)
Record Run : Type := {
  debts : Store;
  world : World;
}.

Definition io {A} (m : M World A) : M Run A := fun s =>
  let '(r, w) := m (world s) in (r, {| debts := debts s; world := w |}).

Definition get_debts : M Run Store := fun s => (Ok (debts s), s).

(** [debts[key] = v]. *)
Definition debts_setitem (key : string) (v : value) : M Run unit := fun s =>
  (Ok tt, {| debts := <[key := v]> (debts s); world := world s |}).

(** [for x in xs: body(x)], for a body without [break]. *)
Fixpoint for_each {S A} (body : A -> M S unit) (xs : list A) : M S unit :=
  match xs with
  | [] => mret tt
  | x :: rest => body x;; for_each body rest
  end.

(** [debt[key] = v] where [debt] is a dictionary or [None]. *)
Definition setitem {S} (debt : option (list (string * value)))
                   (key : string) (v : value)
  : M S (list (string * value)) :=
  match debt with
  | Some d => mret (dict_set key v d)
  | None => raise (TypeError "'NoneType' object does not support item assignment")
  end.

(** ** The program *)

Section Program.

(** The backend behind [openai.ChatCompletion.create]: what the call number
    [n] of a run (from 0) answers to its request, a response or an error. *)
Variable remote : nat -> Request -> res value.

(** [textwrap.fill(text, width)]. *)
Variable textwrap_fill : string -> Z -> string.

(** [gd.Guard.from_pydantic(output_class=CodeInfo, prompt=prompt)]. *)
Variable Guard_from_pydantic : string -> Guard.

(** The file system: the message of the [OSError], if any, with which it
    refuses to create a file of a given name (a name that is too long, a
    directory that cannot be written). *)
Variable creation_error : string -> option string.

Definition engineName : string := "jaipetefort".

(** [openai.ChatCompletion.create] on its keyword arguments: one request,
    answered by the backend. *)
Definition create (req : Request) : M World value := fun w =>
  (remote (length (requests w)) req, log_request req w).

Definition wrap_text (text : string) (width : Z) : string :=
  textwrap_fill text width.

(** The default [char] of [print_bar], byte for byte as in the script. *)
Definition bar_char : string :=
  Text.chr 195 +:+ Text.chr 162 +:+ Text.chr 226 +:+ Text.chr 128 +:+
  Text.chr 147 +:+ Text.chr 203 +:+ Text.chr 134.

Definition print_bar (length : nat) (char : string) : M World unit :=
  print (OStr (Text.repeat_str char length)).

(** The request of [call_openai_api]. *)
Definition chat_request (messages : value) : Request :=
  {| engine := engineName; payload := messages; temperature := 0.7;
     max_tokens := 500; top_p := Some 0.95%Q;
     frequency_penalty := Some 0%Q; presence_penalty := Some 0%Q |}.

(** The suite of the [try]: it returns the response or raises, and never
    ends normally. *)
Definition call_openai_api_try (messages : value) : M World (flow value) :=
  response ← create (chat_request messages);
  mret (Return response).

(** The [except Exception as e] clause; [seconds] is the local variable of
    that name, [None] while it is unbound. *)
Definition call_openai_api_except (e : exn) (seconds : option N)
  : M World (option N) :=
  let error := "Error: " +:+ str_exn e +:+ "." in
  print (OStr (wrap_text error 200));;
  seconds ← match Text.search_seconds (str_exn e) with
            | Some group1 =>
                let seconds := Text.int_of_digits group1 in
                print (ONum seconds);; mret (Some seconds)
            | None =>
                print (OStr "Seconds not found in the text!");; mret seconds
            end;
  match seconds with
  | None =>
      raise (UnboundLocalError
               "local variable 'seconds' referenced before assignment")
  | Some n =>
      print (OStr ("Retrying calling AI engine in " +:+ Text.str_of_N n
                   +:+ " seconds..."));;
      time_sleep n;;
      mret seconds
  end.

(** One turn of the [for] loop: the [try] statement with its two [except]
    clauses and its [else] clause. *)
Definition call_openai_api_body (messages : value) (seconds : option N)
  : M World (flow value * option N) :=
  r ← try_ (call_openai_api_try messages);
  match r with
  | Ok (Return response) => mret (Return response, seconds)
  | Ok _ =>
      (* the [else] of the [try]: its suite ended without [return] *)
      raise (Exception "Failed to call OpenAI API after multiple retries.")
  | Raise (InvalidRequestError msg) =>
      if Text.str_in "Maximum context length" msg && Text.str_in "tokens" msg
      then
        print (OStr "Error: Message length exceeds the model's token limit. Please reduce the length of the messages.");;
        mret (Break, seconds)
      else mret (Normal, seconds)
  | Raise e =>
      seconds ← call_openai_api_except e seconds;
      mret (Normal, seconds)
  end.

(** [for _ in range(n)] over the body; when the loop ends, by exhaustion or
    by [break], the function ends without [return]: its value is [None]. *)
Fixpoint call_openai_api_loop (messages : value) (n : nat) (seconds : option N)
  : M World value :=
  match n with
  | O => mret VNone
  | S n' =>
      '(f, seconds) ← call_openai_api_body messages seconds;
      match f with
      | Return response => mret response
      | Break => mret VNone
      | Normal => call_openai_api_loop messages n' seconds
      end
  end.

Definition call_openai_api (messages : value) (retries : Z) : M World value :=
  call_openai_api_loop messages (Z.to_nat retries) None.

(** The prompt template of [createGuard]. *)
Definition prompt : string :=
  Text.nl +:+
  "  Given the following code snippet, please extract a dictionary that contains the security vulnerabilities in the code. Validate if these vulnerabilities actually exist."
  +:+ Text.nl +:+ Text.nl +:+
  "  ${code_changes} <!-- (2)! -->" +:+ Text.nl +:+ Text.nl +:+
  "  ${gr.complete_json_suffix_v2} <!-- (3)! -->" +:+ Text.nl +:+ "  ".

(** [createGuard] does not use its argument: the template is filled later. *)
Definition createGuard (code_changes : string) : Guard :=
  Guard_from_pydantic prompt.

(** The guard is called with [openai.ChatCompletion.create] itself. *)
Definition debtDetect (code_changes : string) (guard : Guard)
  : M World (option (list (string * value))) :=
  '(raw_llm_output, validated_output) ←
    run_guard create
      (guard [("code_changes", code_changes)] "jaipetefort" 1024%Z 0.3%Q);
  mret validated_output.

Definition source_code_extensions : list string :=
  [".c"; ".cpp"; ".h"; ".java"; ".py"; ".js"; ".php";
   ".cs"; ".rb"; ".go"; ".rs"; ".ts"; ".m"; ".swift";
   ".f"; ".f90"; ".perl"; ".sh"; ".bash"].

Definition is_source_code (filename : string) : bool :=
  let ext := Text.splitext_ext filename in
  existsb (String.eqb ext) source_code_extensions.

Definition url_to_filename (url : string) : string :=
  Text.map_chars
    (fun c => if Text.invalid_filename_char c then "_"%char else c) url.

Definition debts_file_of (repo_url : string) : string :=
  url_to_filename repo_url +:+ "_debts.json".

(** [modified_files_content and is_source_code(modification.new_path)]. *)
Definition qualifies (modification : ModifiedFile) : bool :=
  match source_code modification with
  | None | Some EmptyString => false
  | Some _ => is_source_code (new_path modification)
  end.

(** [commit.hash in debts and debts[commit.hash]]. *)
Definition already_processed (debts : Store) (commit : Commit) : bool :=
  match debts !! hash commit with
  | Some v => truthy v
  | None => false
  end.

(** [open(name, 'w')]: a file that exists is opened and emptied (a store
    file that exists is taken to be writable), a new file is created unless
    the file system refuses, in which case [open] raises.  The emptied file is filled by the [json.dump] that follows; nothing
    between the two raises in this model, so it never ends on the empty
    file.  The death of the process between the two is not modelled. *)
Definition open_for_writing (name : string) : M World unit := fun w =>
  match disk w !! name, creation_error name with
  | None, Some msg => (Raise (OSError msg), w)
  | _, _ => (Ok tt, w)
  end.

(** The body of the loop over [commit.modified_files]. *)
Definition main_file (repo_url : string) (commit : Commit)
                     (modification : ModifiedFile) : M Run unit :=
  let debts_file := debts_file_of repo_url in
  let modified_files_content := source_code modification in
  if qualifies modification then
    let content := default EmptyString modified_files_content in
    io (print_bar 200 bar_char);;
    io (print (OStr (Text.nl +:+ "Analyzing " +:+ new_path modification
                     +:+ Text.nl)));;
    let guard := createGuard content in
    debt ← io (debtDetect content guard);
    debt ← setitem debt "location" (VStr (new_path modification));
    debt ← setitem (Some debt) "repository" (VStr repo_url);
    io (print (ODict debt));;
    debts_setitem (hash commit) (VDict debt);;
    io (open_for_writing debts_file);;
    io (print (OStr "Saving to Debts JSON..."));;
    debts ← get_debts;
    io (write_json debts_file debts)
  else mret tt.

(** The body of the loop over the commits. *)
Definition main_commit (repo_url : string) (commit : Commit) : M Run unit :=
  debts ← get_debts;
  if already_processed debts commit then mret tt
  else
    io (print_bar 200 bar_char);;
    io (print (OStr (Text.nl +:+ "Analyzing Commit: " +:+ hash commit
                     +:+ " in " +:+ repo_url +:+ Text.nl)));;
    for_each (main_file repo_url commit) (modified_files commit).

(** What [main] starts from: the empty store, or the one of the file when
    [resume] is set and the file exists. *)
Definition load_debts (repo_url : string) (resume : bool) (w : World) : Store :=
  if resume then default ∅ (disk w !! debts_file_of repo_url) else ∅.

(** [main(repo_url, resume)] on the commits that
    [Repository(repo_url).traverse_commits()] yields.  The result is what
    [main] returns or raises, with the last value of [debts] and the world. *)
Definition main (commits : list Commit) (repo_url : string) (resume : bool)
  : World -> res unit * Run := fun w =>
  for_each (main_commit repo_url) commits
           {| debts := load_debts repo_url resume w; world := w |}.

End Program.

(** ** Auxiliary definitions of the statements *)

(** The enrichment that [main] applies to a validated result. *)
Definition enrich (repo_url path : string) (d0 : list (string * value))
  : list (string * value) :=
  dict_set "repository" (VStr repo_url) (dict_set "location" (VStr path) d0).

(** The world [w] with the file [name] holding [store]. *)
Definition with_file (name : string) (store : Store) (w : World) : World :=
  {| requests := requests w; console := console w; sleeps := sleeps w;
     disk := <[name := store]> (disk w) |}.

(** [debtDetect] as section 4.2 of the specification words it: the request
    of the guard is submitted through the retry wrapper, with its default
    budget of three attempts. *)
Definition debtDetect_through_wrapper
    (remote : nat -> Request -> res value) (textwrap_fill : string -> Z -> string)
    (code_changes : string) (guard : Guard)
  : M World (option (list (string * value))) :=
  '(raw_llm_output, validated_output) ←
    run_guard (fun req => call_openai_api remote textwrap_fill (payload req) 3)
      (guard [("code_changes", code_changes)] "jaipetefort" 1024%Z 0.3%Q);
  mret validated_output.

(** ** Sample inputs *)

Module Sample.

Definition empty_world : World :=
  {| requests := []; console := []; sleeps := []; disk := ∅ |}.

(** A [textwrap.fill] for texts that fit on one line. *)
Definition fill (text : string) (width : Z) : string := text.

(** A backend that throttles every call. *)
Definition throttled : nat -> Request -> res value := fun _ _ =>
  Raise (BackendError "RateLimitError"
           "Rate limit reached. Please retry after 1 second.").

(** A backend that is down, with a message that names no delay. *)
Definition unavailable : nat -> Request -> res value := fun _ _ =>
  Raise (BackendError "ServiceUnavailableError" "The server is overloaded.").

(** A backend that refuses the payload as too long. *)
Definition too_long : nat -> Request -> res value := fun _ _ =>
  Raise (InvalidRequestError
           "Maximum context length is 4097 tokens, the messages have 9000.").


(** A backend that always answers. *)
Definition healthy : nat -> Request -> res value := fun _ _ => Ok (VStr "{}").

Definition analysis : list (string * value) :=
  [("snippet_functionality", VStr "reads a key"); ("number_of_lines", VInt 1);
   ("securityDebts", VList []); ("technicalDebts", VList [])].

(** A guard that calls the LLM once, accepts any answer and lets an error of
    the call through. *)
Definition guard_once : string -> Guard := fun prompt params engine max_tokens temperature =>
  CallLLM {| engine := engine; payload := VStr prompt; temperature := temperature;
             max_tokens := max_tokens; top_p := None;
             frequency_penalty := None; presence_penalty := None |}
          (fun r => match r with
                    | Ok _ => Validated (Some "{}") (Some analysis)
                    | Raise e => GuardRaises e
                    end).

Definition messages : value := VList [VDict [("role", VStr "user"); ("content", VStr "hello")]].

Definition auth_py : ModifiedFile :=
  {| new_path := "auth.py"; source_code := Some "key = 1" |}.
Definition util_js : ModifiedFile :=
  {| new_path := "util.js"; source_code := Some "let a;" |}.
Definition readme_md : ModifiedFile :=
  {| new_path := "readme.md"; source_code := Some "hello" |}.

Definition commit1 : Commit := {| hash := "c1"; modified_files := [auth_py; readme_md] |}.
Definition commit2 : Commit := {| hash := "c2"; modified_files := [util_js] |}.
Definition commit3 : Commit := {| hash := "c3"; modified_files := [auth_py; util_js] |}.

Definition repo_url : string := "https://example.org/r".

(** A file system that lets every file be created. *)
Definition any_file : string -> option string := fun _ => None.

Definition old_store : Store := {[ "c1" := VDict [("location", VStr "old.py")] ]}.

End Sample.

(** Whether [except openai.error.InvalidRequestError] takes the error. *)
Definition is_InvalidRequestError (e : exn) : bool :=
  match e with
  | InvalidRequestError _ => true
  | _ => false
  end.

(** The message of the [NameError] family that an unbound [seconds] gives. *)
Definition seconds_unbound : exn :=
  UnboundLocalError "local variable 'seconds' referenced before assignment".

(** The notice of the wrapper on a payload that is too long. *)
Definition too_long_notice : out :=
  OStr "Error: Message length exceeds the model's token limit. Please reduce the length of the messages.".

(** What one turn of the file loop of [main], on a commit of hash [h], does to
    the store in memory and to the files: nothing; or one entry under [h] and
    the whole store written to the file of the repository; or, when that file
    does not exist and cannot be created, the entry in memory alone. *)
Inductive store_step (creation_error : string -> option string)
                     (repo_url h : string)
  : Store * gmap string Store -> Store * gmap string Store -> Prop :=
| step_idle d dk : store_step creation_error repo_url h (d, dk) (d, dk)
| step_store d dk path d0 :
    store_step creation_error repo_url h (d, dk)
      (<[h := VDict (enrich repo_url path d0)]> d,
       <[debts_file_of repo_url := <[h := VDict (enrich repo_url path d0)]> d]> dk)
| step_unwritten d dk path d0 :
    dk !! debts_file_of repo_url = None ->
    is_Some (creation_error (debts_file_of repo_url)) ->
    store_step creation_error repo_url h (d, dk)
      (<[h := VDict (enrich repo_url path d0)]> d, dk).

(** The store in memory and the files of a state of [main]. *)
Definition stored (s : Run) : Store * gmap string Store :=
  (debts s, disk (world s)).

(** ** Further definitions of the statements *)

(** The world after the two lines that announce a file in [main]. *)
Definition announce_file (modification : ModifiedFile) (w : World) : World :=
  {| requests := requests w;
     console := (console w ++ [OStr (Text.repeat_str bar_char 200)])
                ++ [OStr (Text.nl +:+ "Analyzing " +:+ new_path modification
                          +:+ Text.nl)];
     sleeps := sleeps w;
     disk := disk w |}.

(** Every character of [s] satisfies [p]. *)
Fixpoint all_chars (p : ascii -> bool) (s : string) : bool :=
  match s with
  | EmptyString => true
  | String c rest => p c && all_chars p rest
  end.

(** [s] has no character that [url_to_filename] replaces. *)
Definition filename_safe (s : string) : bool :=
  all_chars (fun c => negb (Text.invalid_filename_char c)) s.

(** [c] does not occur in [s]. *)
Definition lacks (c : ascii) (s : string) : bool :=
  all_chars (fun d => negb (Ascii.eqb d c)) s.

(** The test of the first [except] clause of [call_openai_api]. *)
Definition too_long_message (msg : string) : bool :=
  Text.str_in "Maximum context length" msg && Text.str_in "tokens" msg.

(** The shape of an extension of the list: a dot, then neither dot nor
    slash. *)
Definition extension_shape (ext : string) : bool :=
  match ext with
  | String c e => Ascii.eqb c "." && lacks "." e && lacks "/" e
  | EmptyString => false
  end.

(** The [TypeError] of an item assignment on [None]. *)
Definition none_not_assignable : exn :=
  TypeError "'NoneType' object does not support item assignment".

(** The state of [main] after a file is analysed with the validated result
    [d0], the world being [wb] when the analysis returns. *)
Definition file_stored (repo_url : string) (commit : Commit)
    (modification : ModifiedFile) (d0 : list (string * value))
    (s : Run) (wb : World) : Run :=
  let debt := enrich repo_url (new_path modification) d0 in
  let debts' := <[hash commit := VDict debt]> (debts s) in
  {| debts := debts';
     world := {| requests := requests wb;
                 console := (console wb ++ [ODict debt])
                            ++ [OStr "Saving to Debts JSON..."];
                 sleeps := sleeps wb;
                 disk := <[debts_file_of repo_url := debts']> (disk wb) |} |}.

(** The state of [main] after the two lines that announce a commit. *)
Definition announce_commit (repo_url : string) (commit : Commit) (s : Run) : Run :=
  {| debts := debts s;
     world := {| requests := requests (world s);
                 console := (console (world s)
                             ++ [OStr (Text.repeat_str bar_char 200)])
                            ++ [OStr (Text.nl +:+ "Analyzing Commit: "
                                      +:+ hash commit +:+ " in " +:+ repo_url
                                      +:+ Text.nl)];
                 sleeps := sleeps (world s);
                 disk := disk (world s) |} |}.

(** The state of [main] after a file is analysed with the validated result
    [d0] and the store file could not be created: the entry is in memory. *)
Definition file_unwritten (repo_url : string) (commit : Commit)
    (modification : ModifiedFile) (d0 : list (string * value))
    (s : Run) (wb : World) : Run :=
  let debt := enrich repo_url (new_path modification) d0 in
  {| debts := <[hash commit := VDict debt]> (debts s);
     world := {| requests := requests wb;
                 console := console wb ++ [ODict debt];
                 sleeps := sleeps wb;
                 disk := disk wb |} |}.

(** The store file of the repository exists or can be created. *)
Definition store_writable (creation_error : string -> option string)
    (repo_url : string) (dk : gmap string Store) : Prop :=
  is_Some (dk !! debts_file_of repo_url) \/
  creation_error (debts_file_of repo_url) = None.

(** A character of the first 128 code points. *)
Definition is_ascii (c : ascii) : bool := (nat_of_ascii c <? 128)%nat.

(** Some file of the commit qualifies for analysis. *)
Definition has_source_file (commit : Commit) : bool :=
  existsb qualifies (modified_files commit).

(** ** More sample inputs *)

Module Cases.

(** A backend that refuses every request as invalid. *)
Definition refused : nat -> Request -> res value := fun _ _ =>
  Raise (InvalidRequestError "The engine does not exist.").


(** A guard that calls the LLM once and finds the answer invalid. *)
Definition guard_rejects : string -> Guard :=
  fun prompt params engine max_tokens temperature =>
  CallLLM {| engine := engine; payload := VStr prompt; temperature := temperature;
             max_tokens := max_tokens; top_p := None;
             frequency_penalty := None; presence_penalty := None |}
          (fun r => match r with
                    | Ok _ => Validated (Some "{}") None
                    | Raise e => GuardRaises e
                    end).

(** A commit that changes documentation only. *)
Definition docs_commit : Commit :=
  {| hash := "c4"; modified_files := [Sample.readme_md] |}.

Definition resumed_world : World :=
  with_file (debts_file_of Sample.repo_url) Sample.old_store Sample.empty_world.

(** A guard that calls the LLM once, accepts any answer, and wraps an error
    of the call in an exception of its own, as guardrails does with an error
    that it does not retry. *)
Definition guard_wraps : string -> Guard :=
  fun prompt params engine max_tokens temperature =>
  CallLLM {| engine := engine; payload := VStr prompt; temperature := temperature;
             max_tokens := max_tokens; top_p := None;
             frequency_penalty := None; presence_penalty := None |}
          (fun r => match r with
                    | Ok _ => Validated (Some "{}") (Some Sample.analysis)
                    | Raise e =>
                        GuardRaises
                          (BackendError "PromptCallableException"
                             ("The callable `fn` passed to `Guard(fn, ...)` failed with the following error: `"
                              +:+ str_exn e +:+ "`."))
                    end).

(** A working directory in which no file can be created. *)
Definition read_only : string -> option string := fun name =>
  Some ("[Errno 13] Permission denied: '" +:+ name +:+ "'").

End Cases.

(** * Properties *)

(** ** Reasoning about the monad *)

Lemma bind_Ok {S A B} (m : M S A) (f : A -> M S B) s a s' :
  m s = (Ok a, s') -> (m ≫= f) s = f a s'.
Proof. intros H. unfold mbind, M_bind. by rewrite H. Qed.

Lemma bind_Raise {S A B} (m : M S A) (f : A -> M S B) s e s' :
  m s = (Raise e, s') -> (m ≫= f) s = (Raise e, s').
Proof. intros H. unfold mbind, M_bind. by rewrite H. Qed.

Lemma bind_inv {S A B} (m : M S A) (f : A -> M S B) s r s' :
  (m ≫= f) s = (r, s') ->
  (exists a s1, m s = (Ok a, s1) /\ f a s1 = (r, s')) \/
  (exists e, m s = (Raise e, s') /\ r = Raise e).
Proof.
  unfold mbind, M_bind. destruct (m s) as [[a|e] s1]; intros H.
  - left. eauto.
  - right. inversion H; subst. eauto.
Qed.

Lemma for_each_app {S A} (body : A -> M S unit) xs ys s :
  for_each body (xs ++ ys) s =
  match for_each body xs s with
  | (Ok _, s1) => for_each body ys s1
  | (Raise e, s1) => (Raise e, s1)
  end.
Proof.
  revert s. induction xs as [|x xs IH]; intros s; simpl.
  - reflexivity.
  - unfold mbind, M_bind. destruct (body x s) as [[[]|e] s1]; [apply IH | done].
Qed.

Lemma for_each_raise_app {S A} (body : A -> M S unit) xs ys s e s' :
  for_each body xs s = (Raise e, s') ->
  for_each body (xs ++ ys) s = (Raise e, s').
Proof. intros H. by rewrite for_each_app, H. Qed.

Section Frame.

Variable remote : nat -> Request -> res value.

Abbreviation create := (create remote).
Abbreviation debtDetect := (debtDetect remote).

(** A guard run on [create] writes no file, and only adds to the log of the
    backend. *)
Lemma run_guard_create_frame plan w r w' :
  run_guard create plan w = (r, w') ->
  disk w' = disk w /\
  exists more, requests w' = requests w ++ more.
Proof.
  revert w. induction plan as [raw v|e|req next IH]; intros w; simpl.
  - intros [= <- <-]. split; [done|]. exists []. by rewrite app_nil_r.
  - intros [= <- <-]. split; [done|]. exists []. by rewrite app_nil_r.
  - unfold mbind, M_bind, try_, create. simpl.
    intros H. apply IH in H. simpl in H.
    destruct H as (Hd & more & Hr).
    split; [done|]. exists (req :: more).
    by rewrite Hr, <- app_assoc.
Qed.

Lemma debtDetect_frame code guard w r w' :
  debtDetect code guard w = (r, w') ->
  disk w' = disk w /\
  exists more, requests w' = requests w ++ more.
Proof.
  unfold debtDetect. intros H. apply bind_inv in H.
  destruct H as [([raw v] & w1 & H1 & H2)|(e & H1 & _)].
  - inversion H2; subst. by eapply run_guard_create_frame.
  - by eapply run_guard_create_frame.
Qed.

End Frame.

(** ** The retry wrapper *)

Ltac wrapper_unfold :=
  unfold call_openai_api_body, call_openai_api_try, call_openai_api_except,
    try_, create, mbind, M_bind, mret, M_ret, print, raise, time_sleep;
  simpl.

Section Wrapper.

Variable remote : nat -> Request -> res value.
Variable textwrap_fill : string -> Z -> string.

Abbreviation call_openai_api := (call_openai_api remote textwrap_fill).
Abbreviation call_openai_api_loop := (call_openai_api_loop remote textwrap_fill).
Abbreviation call_openai_api_body := (call_openai_api_body remote textwrap_fill).

(** A turn of the loop on an error that is not a payload that is too long,
    and for which [seconds] is bound: the loop goes on, with one request
    more. *)
Lemma body_failed_attempt messages seconds w e :
  remote (length (requests w)) (chat_request messages) = Raise e ->
  is_InvalidRequestError e = true \/ is_Some (Text.search_seconds (str_exn e)) ->
  exists f seconds' w',
    call_openai_api_body messages seconds w = (Ok (f, seconds'), w') /\
    (f = Normal \/ f = Break) /\
    length (requests w') = S (length (requests w)).
Proof.
  intros Hr He. wrapper_unfold. rewrite Hr.
  destruct e as [msg|cls msg|msg|msg|msg|msg]; simpl in *;
    try (destruct He as [He|[g Hg]]; [done|]; rewrite Hg; simpl;
         eexists _, _, _; split; [reflexivity|]; simpl;
         rewrite length_app; simpl; split; [by left | lia]).
  destruct (_ && _); simpl; eexists _, _, _; (split; [reflexivity|]); simpl;
    rewrite length_app; simpl; (split; [auto | lia]).
Qed.

Lemma loop_all_fail messages n : forall seconds w,
  (forall k req, exists e, remote k req = Raise e /\
     (is_InvalidRequestError e = true \/ is_Some (Text.search_seconds (str_exn e)))) ->
  exists w', call_openai_api_loop messages n seconds w = (Ok VNone, w') /\
             (length (requests w') <= length (requests w) + n)%nat.
Proof.
  induction n as [|n IH]; intros seconds w Hfail; simpl.
  - exists w. split; [done | lia].
  - destruct (Hfail (length (requests w)) (chat_request messages)) as (e & Hr & He).
    destruct (body_failed_attempt messages seconds w e Hr He)
      as (f & seconds' & w1 & Hb & Hf & Hlen).
    unfold mbind at 1, M_bind at 1. rewrite Hb.
    destruct Hf as [-> | ->].
    + destruct (IH seconds' w1 Hfail) as (w' & Hl & Hn).
      exists w'. split; [done | lia].
    + exists w1. split; [done | lia].
Qed.

(** C1, as the code behaves.  When every attempt fails, with an
    error whose message names a delay or with an invalid-request error, the
    wrapper does not signal a failure after the last attempt: it returns
    [None] to its caller, having made at most [retries] requests.  The
    [raise] written for this case sits in the [else] of the [try], which is
    never run. *)
Theorem call_openai_api_exhausted_returns_None messages retries w :
  (forall k req, exists e, remote k req = Raise e /\
     (is_InvalidRequestError e = true \/ is_Some (Text.search_seconds (str_exn e)))) ->
  exists w', call_openai_api messages retries w = (Ok VNone, w') /\
             (length (requests w') <= length (requests w) + Z.to_nat retries)%nat.
Proof. intros Hfail. by apply loop_all_fail. Qed.

(** C4, as the code behaves.  On a first attempt that fails with an
    error, other than an invalid request, whose message names no delay, the
    wrapper does not go on to its next attempt: after printing the error and
    that no seconds were found, it reads the unbound [seconds] and raises
    [UnboundLocalError].  One request was made, and nothing was slept. *)
Theorem call_openai_api_no_delay_aborts messages retries w e :
  (0 < retries)%Z ->
  remote (length (requests w)) (chat_request messages) = Raise e ->
  is_InvalidRequestError e = false ->
  Text.search_seconds (str_exn e) = None ->
  call_openai_api messages retries w =
  (Raise seconds_unbound,
   {| requests := requests w ++ [chat_request messages];
      console := console w ++
                 [OStr (wrap_text textwrap_fill ("Error: " +:+ str_exn e +:+ ".") 200)] ++
                 [OStr "Seconds not found in the text!"];
      sleeps := sleeps w;
      disk := disk w |}).
Proof.
  intros Hpos Hr He Hs. unfold call_openai_api.
  destruct (Z.to_nat retries) as [|n] eqn:Hn; [lia|]. simpl.
  wrapper_unfold. rewrite Hr.
  destruct e as [msg|cls msg|msg|msg|msg|msg]; simpl in *; try done;
    rewrite Hs; simpl; by rewrite <- app_assoc.
Qed.

(** On a later attempt the same error makes the wrapper sleep the delay of
    an earlier error again: [seconds] still holds it. *)
Lemma call_openai_api_body_stale_delay messages n w e :
  remote (length (requests w)) (chat_request messages) = Raise e ->
  is_InvalidRequestError e = false ->
  Text.search_seconds (str_exn e) = None ->
  exists w', call_openai_api_body messages (Some n) w = (Ok (Normal, Some n), w') /\
             sleeps w' = sleeps w ++ [n].
Proof.
  intros Hr He Hs. wrapper_unfold. rewrite Hr.
  destruct e as [msg|cls msg|msg|msg|msg|msg]; simpl in *; try done;
    rewrite Hs; simpl; eexists; split; reflexivity.
Qed.

(** C5 (amended).  On an invalid-request error whose message contains
    [Maximum context length] and [tokens], the wrapper makes no further
    attempt and prints its notice; it then leaves the loop and returns [None]
    to its caller: no error is raised. *)
Theorem call_openai_api_too_long_returns_None messages retries w msg :
  (0 < retries)%Z ->
  remote (length (requests w)) (chat_request messages)
    = Raise (InvalidRequestError msg) ->
  Text.str_in "Maximum context length" msg = true ->
  Text.str_in "tokens" msg = true ->
  call_openai_api messages retries w =
  (Ok VNone,
   {| requests := requests w ++ [chat_request messages];
      console := console w ++ [too_long_notice];
      sleeps := sleeps w;
      disk := disk w |}).
Proof.
  intros Hpos Hr H1 H2. unfold call_openai_api.
  destruct (Z.to_nat retries) as [|n] eqn:Hn; [lia|]. simpl.
  wrapper_unfold. rewrite Hr. simpl. by rewrite H1, H2.
Qed.

(** One turn of the loop makes one request, the one of [messages], leaves the
    files alone, and raises nothing but the error of the unbound [seconds]. *)
Lemma call_openai_api_body_effects messages seconds w rb w1 :
  call_openai_api_body messages seconds w = (rb, w1) ->
  requests w1 = requests w ++ [chat_request messages] /\
  disk w1 = disk w /\
  (forall e, rb = Raise e -> e = seconds_unbound).
Proof.
  wrapper_unfold.
  destruct (remote _ _) as [resp|e]; simpl.
  - intros [= <- <-]. done.
  - destruct e as [msg|cls msg|msg|msg|msg|msg]; simpl;
      try (destruct (Text.search_seconds msg); simpl;
           [|destruct seconds; simpl]; intros [= <- <-]; simpl;
           repeat split; try done; by intros e [= <-]).
    destruct (_ && _); simpl; intros [= <- <-]; done.
Qed.

Lemma call_openai_api_loop_effects messages n : forall seconds w r w',
  call_openai_api_loop messages n seconds w = (r, w') ->
  (exists k, (k <= n)%nat /\
             requests w' = requests w ++ repeat (chat_request messages) k) /\
  disk w' = disk w /\
  (forall e, r = Raise e -> e = seconds_unbound).
Proof.
  induction n as [|n IH]; intros seconds w r w'; simpl.
  - intros [= <- <-]. split; [|done]. exists 0%nat. simpl.
    by rewrite app_nil_r.
  - intros H. apply bind_inv in H.
    destruct H as [([f seconds'] & w1 & Hb & Hk)|(e & Hb & ->)].
    + destruct (call_openai_api_body_effects _ _ _ _ _ Hb) as (Hr & Hd & _).
      destruct f as [|resp|].
      * apply IH in Hk. destruct Hk as ((k & Hle & Hreq) & Hd' & He).
        split; [|split; [congruence | exact He]].
        exists (S k). split; [lia|].
        rewrite Hreq, Hr, <- app_assoc. done.
      * inversion Hk; subst. split; [|done].
        exists 1%nat. split; [lia | exact Hr].
      * inversion Hk; subst. split; [|done].
        exists 1%nat. split; [lia | exact Hr].
    + destruct (call_openai_api_body_effects _ _ _ _ _ Hb) as (Hr & Hd & He).
      split; [|split; [done | intros e' [= <-]; by apply He]].
      exists 1%nat. split; [lia | exact Hr].
Qed.

(** With a positive budget the wrapper sends the request of [messages] first
    and only adds to the log of the backend. *)
Lemma call_openai_api_first_request messages retries w :
  (0 < retries)%Z ->
  exists more,
    requests (snd (call_openai_api messages retries w))
    = requests w ++ chat_request messages :: more.
Proof.
  intros Hpos. destruct (call_openai_api messages retries w) as [r w'] eqn:H.
  unfold call_openai_api in H.
  destruct (Z.to_nat retries) as [|n] eqn:Hn; [lia|].
  simpl in H. apply bind_inv in H.
  destruct H as [([f seconds'] & w1 & Hb & Hk)|(e & Hb & ->)];
    destruct (call_openai_api_body_effects _ _ _ _ _ Hb) as (Hr & _ & _); simpl.
  - destruct f as [|resp|].
    + apply call_openai_api_loop_effects in Hk as ((k & _ & Hreq) & _).
      exists (repeat (chat_request messages) k).
      by rewrite Hreq, Hr, <- app_assoc.
    + inversion Hk; subst. by exists [].
    + inversion Hk; subst. by exists [].
  - by exists [].
Qed.

End Wrapper.

(** The wrapper on the sample backends. *)

Lemma call_openai_api_exhausted_returns_None_witness :
  exists w',
    call_openai_api Sample.throttled Sample.fill Sample.messages 3
                    Sample.empty_world = (Ok VNone, w') /\
    (length (requests w') <= length (requests Sample.empty_world) + Z.to_nat 3)%nat.
Proof.
  apply (call_openai_api_exhausted_returns_None
           Sample.throttled Sample.fill Sample.messages 3 Sample.empty_world).
  intros k req. eexists. split; [reflexivity|].
  right. vm_compute. eauto.
Defined.

(** Three throttled attempts: three requests, three sleeps, and [None]. *)
Example call_openai_api_throttled_run :
  call_openai_api Sample.throttled Sample.fill Sample.messages 3 Sample.empty_world
  = (Ok VNone,
     {| requests := [chat_request Sample.messages; chat_request Sample.messages;
                     chat_request Sample.messages];
        console :=
          [OStr "Error: Rate limit reached. Please retry after 1 second.."; ONum 1;
           OStr "Retrying calling AI engine in 1 seconds...";
           OStr "Error: Rate limit reached. Please retry after 1 second.."; ONum 1;
           OStr "Retrying calling AI engine in 1 seconds...";
           OStr "Error: Rate limit reached. Please retry after 1 second.."; ONum 1;
           OStr "Retrying calling AI engine in 1 seconds..."];
        sleeps := [1; 1; 1]%N;
        disk := ∅ |}).
Proof. vm_compute. reflexivity. Qed.

Lemma call_openai_api_no_delay_aborts_witness :
  call_openai_api Sample.unavailable Sample.fill Sample.messages 3 Sample.empty_world
  = (Raise seconds_unbound,
     {| requests := [chat_request Sample.messages];
        console := [OStr "Error: The server is overloaded.."; 
                    OStr "Seconds not found in the text!"];
        sleeps := [];
        disk := ∅ |}).
Proof.
  apply (call_openai_api_no_delay_aborts
           Sample.unavailable Sample.fill Sample.messages 3 Sample.empty_world
           (BackendError "ServiceUnavailableError" "The server is overloaded."));
    [lia | reflexivity | reflexivity | vm_compute; reflexivity].
Defined.

Lemma call_openai_api_too_long_returns_None_witness :
  call_openai_api Sample.too_long Sample.fill Sample.messages 3 Sample.empty_world
  = (Ok VNone,
     {| requests := [chat_request Sample.messages];
        console := [too_long_notice];
        sleeps := [];
        disk := ∅ |}).
Proof.
  apply (call_openai_api_too_long_returns_None
           Sample.too_long Sample.fill Sample.messages 3 Sample.empty_world
           "Maximum context length is 4097 tokens, the messages have 9000.");
    [lia | reflexivity | vm_compute; reflexivity | vm_compute; reflexivity].
Defined.

(** C5 as stated fails: on a payload that is too long the wrapper returns
    normally, it raises nothing. *)
Lemma call_openai_api_too_long_not_an_error :
  fst (call_openai_api Sample.too_long Sample.fill Sample.messages 3
                       Sample.empty_world) = Ok VNone /\
  ~ exists e, fst (call_openai_api Sample.too_long Sample.fill Sample.messages 3
                                   Sample.empty_world) = Raise e.
Proof. split; [vm_compute; reflexivity | intros [e He]; vm_compute in He; discriminate]. Qed.

(** ** The extraction client *)

(** A guard run on a callable that only adds to the log of the backend only
    adds to it. *)
Lemma run_guard_requests_grow (llm_api : Request -> M World value) plan :
  (forall req w r w', llm_api req w = (r, w') ->
     exists more, requests w' = requests w ++ more) ->
  forall w r w', run_guard llm_api plan w = (r, w') ->
    exists more, requests w' = requests w ++ more.
Proof.
  intros Hllm. induction plan as [raw v|e|req next IH]; intros w r w'; simpl.
  - intros [= <- <-]. exists []. by rewrite app_nil_r.
  - intros [= <- <-]. exists []. by rewrite app_nil_r.
  - unfold mbind, M_bind, try_. destruct (llm_api req w) as [r1 w1] eqn:H1.
    intros H. apply IH in H as [more2 H2]. apply Hllm in H1 as [more1 H1].
    exists (more1 ++ more2). by rewrite H2, H1, <- app_assoc.
Qed.

Section Client.

Variable remote : nat -> Request -> res value.
Variable textwrap_fill : string -> Z -> string.

Abbreviation debtDetect := (debtDetect remote).
Abbreviation debtDetect_through_wrapper :=
  (debtDetect_through_wrapper remote textwrap_fill).

(** C2 (amended).  [debtDetect] hands [openai.ChatCompletion.create] itself
    to the guard, not the retry wrapper.  When the guard calls its callable,
    the request that reaches the backend is the request of the guard,
    unchanged, where a client built on [call_openai_api] would send the
    request of the wrapper; so whenever these two differ no run of
    [debtDetect] is a run through the wrapper.  The answer or the error of the
    backend goes to the guard as it is. *)
Theorem debtDetect_calls_backend_directly code guard w req next :
  guard [("code_changes", code)] "jaipetefort" 1024%Z 0.3%Q = CallLLM req next ->
  req <> chat_request (payload req) ->
  requests (snd (debtDetect code guard w)) !! length (requests w) = Some req /\
  requests (snd (debtDetect_through_wrapper code guard w)) !! length (requests w)
  = Some (chat_request (payload req)) /\
  debtDetect code guard w <> debtDetect_through_wrapper code guard w /\
  debtDetect code guard w
  = debtDetect code (fun _ _ _ _ => next (remote (length (requests w)) req))
               (log_request req w).
Proof.
  intros Hplan Hreq.
  assert (H1 : requests (snd (debtDetect code guard w)) !! length (requests w)
               = Some req).
  { unfold debtDetect. rewrite Hplan.
    destruct (run_guard (create remote) (CallLLM req next) w) as [r w'] eqn:Hrun.
    assert (Hw : exists more, requests w' = requests w ++ req :: more).
    { simpl in Hrun. unfold mbind, M_bind, try_, create in Hrun. simpl in Hrun.
      apply run_guard_create_frame in Hrun as (_ & more & Hr). simpl in Hr.
      exists more. by rewrite Hr, <- app_assoc. }
    destruct Hw as [more Hw].
    assert (Hsnd : requests (snd ((run_guard (create remote) (CallLLM req next) ≫=
                     (fun '(raw_llm_output, validated_output) => mret validated_output)) w))
                   = requests w') .
    { unfold mbind at 1, M_bind at 1. rewrite Hrun.
      destruct r as [[raw v]|e]; reflexivity. }
    rewrite Hsnd, Hw. by apply list_lookup_middle. }
  assert (H2 : requests (snd (debtDetect_through_wrapper code guard w))
                 !! length (requests w) = Some (chat_request (payload req))).
  { unfold debtDetect_through_wrapper. rewrite Hplan.
    set (wrapper := fun req0 : Request =>
           call_openai_api remote textwrap_fill (payload req0) 3).
    assert (Hgrow : forall req0 w0 r0 w0', wrapper req0 w0 = (r0, w0') ->
              exists more, requests w0' = requests w0 ++ more).
    { intros req0 w0 r0 w0' H0. unfold wrapper in H0.
      destruct (call_openai_api_first_request remote textwrap_fill
                  (payload req0) 3 w0) as [more Hm]; [lia|].
      rewrite H0 in Hm. simpl in Hm. eauto. }
    destruct (run_guard wrapper (CallLLM req next) w) as [r w'] eqn:Hrun.
    assert (Hw : exists more,
               requests w' = requests w ++ chat_request (payload req) :: more).
    { simpl in Hrun. unfold mbind, M_bind, try_ in Hrun.
      destruct (wrapper req w) as [r1 w1] eqn:Hcall.
      apply (run_guard_requests_grow wrapper _ Hgrow) in Hrun as [more2 Hr2].
      destruct (call_openai_api_first_request remote textwrap_fill
                  (payload req) 3 w) as [more1 Hm]; [lia|].
      unfold wrapper in Hcall. rewrite Hcall in Hm. simpl in Hm.
      exists (more1 ++ more2). rewrite Hr2, Hm, <- app_assoc. done. }
    destruct Hw as [more Hw].
    assert (Hsnd : requests (snd ((run_guard wrapper (CallLLM req next) ≫=
                     (fun '(raw_llm_output, validated_output) => mret validated_output)) w))
                   = requests w').
    { unfold mbind at 1, M_bind at 1. rewrite Hrun.
      destruct r as [[raw v]|e]; reflexivity. }
    rewrite Hsnd, Hw. by apply list_lookup_middle. }
  split; [exact H1|]. split; [exact H2|]. split.
  - intros Heq. rewrite Heq, H2 in H1. by inversion H1.
  - unfold debtDetect. by rewrite Hplan.
Qed.

End Client.

(** C2 as stated fails: behind a backend that answers every call, the one
    request that [debtDetect] makes carries the keyword arguments that
    [debtDetect] gives the guard ([max_tokens] 1024, [temperature] 0.3, no
    [top_p]); a client built on the wrapper would have sent the request of
    [call_openai_api] ([max_tokens] 500, [temperature] 0.7, [top_p] 0.95). *)
Lemma debtDetect_bypasses_wrapper :
  map (fun r => (engine r, max_tokens r, temperature r, top_p r))
      (requests (snd (debtDetect Sample.healthy "key = 1"
                        (Sample.guard_once prompt) Sample.empty_world)))
  = [("jaipetefort", 1024%Z, 0.3%Q, None)] /\
  map (fun r => (engine r, max_tokens r, temperature r, top_p r))
      (requests (snd (debtDetect_through_wrapper Sample.healthy Sample.fill
                        "key = 1" (Sample.guard_once prompt) Sample.empty_world)))
  = [("jaipetefort", 500%Z, 0.7%Q, Some 0.95%Q)] /\
  debtDetect Sample.healthy "key = 1" (Sample.guard_once prompt) Sample.empty_world
  <> debtDetect_through_wrapper Sample.healthy Sample.fill "key = 1"
       (Sample.guard_once prompt) Sample.empty_world.
Proof.
  split; [vm_compute; reflexivity|]. split; [vm_compute; reflexivity|].
  intros H. apply (f_equal (fun x => map max_tokens (requests (snd x)))) in H.
  vm_compute in H. discriminate.
Qed.

Lemma debtDetect_calls_backend_directly_witness :
  let req := {| engine := "jaipetefort"; payload := VStr prompt;
                temperature := 0.3; max_tokens := 1024; top_p := None;
                frequency_penalty := None; presence_penalty := None |} in
  requests (snd (debtDetect Sample.healthy "key = 1" (Sample.guard_once prompt)
                   Sample.empty_world)) !! length (requests Sample.empty_world)
  = Some req /\
  requests (snd (debtDetect_through_wrapper Sample.healthy Sample.fill "key = 1"
                   (Sample.guard_once prompt) Sample.empty_world))
    !! length (requests Sample.empty_world)
  = Some (chat_request (payload req)).
Proof.
  intros req.
  destruct (debtDetect_calls_backend_directly Sample.healthy Sample.fill "key = 1"
              (Sample.guard_once prompt) Sample.empty_world req
              (fun r => match r with
                        | Ok _ => Validated (Some "{}") (Some Sample.analysis)
                        | Raise e => GuardRaises e
                        end))
    as (H1 & H2 & _).
  - reflexivity.
  - intros H. inversion H.
  - split; [exact H1 | exact H2].
Defined.

(** ** The driver *)

Lemma dict_get_set k v d : dict_get k (dict_set k v d) = Some v.
Proof.
  induction d as [|[k' v'] d IH]; simpl.
  - by rewrite String.eqb_refl.
  - destruct (String.eqb k' k) eqn:E; simpl; rewrite E; [done | exact IH].
Qed.

Lemma dict_get_set_ne k k' v d :
  k <> k' -> dict_get k (dict_set k' v d) = dict_get k d.
Proof.
  intros Hne. induction d as [|[k0 v0] d IH]; simpl.
  - destruct (String.eqb k' k) eqn:E; [|done].
    apply String.eqb_eq in E. congruence.
  - destruct (String.eqb k0 k') eqn:E; simpl.
    + apply String.eqb_eq in E. subst k0.
      destruct (String.eqb k' k) eqn:E'; [|done].
      apply String.eqb_eq in E'. congruence.
    + destruct (String.eqb k0 k); [done | exact IH].
Qed.

Lemma enrich_location url path d0 :
  dict_get "location" (enrich url path d0) = Some (VStr path).
Proof.
  unfold enrich. rewrite dict_get_set_ne by done. apply dict_get_set.
Qed.

Lemma enrich_repository url path d0 :
  dict_get "repository" (enrich url path d0) = Some (VStr url).
Proof. unfold enrich. apply dict_get_set. Qed.

Lemma enrich_truthy url path d0 : truthy (VDict (enrich url path d0)) = true.
Proof.
  unfold enrich. destruct (dict_set "location" (VStr path) d0) as [|[k v] d] eqn:E.
  - done.
  - simpl. by destruct (String.eqb k "repository").
Qed.

Lemma for_each_invariant {S A} (P : S -> Prop) (body : A -> M S unit) xs :
  (forall x s r s', x ∈ xs -> P s -> body x s = (r, s') -> P s') ->
  forall s r s', P s -> for_each body xs s = (r, s') -> P s'.
Proof.
  induction xs as [|x xs IH]; intros Hbody s r s' HP; simpl.
  - by intros [= <- <-].
  - intros H. apply bind_inv in H.
    destruct H as [([] & s1 & H1 & H2)|(e & H1 & _)].
    + eapply IH; [| |exact H2].
      * intros y t q t' Hy. apply Hbody. by right.
      * eapply Hbody; [by left | exact HP | exact H1].
    + eapply Hbody; [by left | exact HP | exact H1].
Qed.

Lemma for_each_skip {S A} (body : A -> M S unit) xs s :
  Forall (fun x => body x s = (Ok tt, s)) xs -> for_each body xs s = (Ok tt, s).
Proof.
  induction 1 as [|x xs Hx _ IH]; simpl; [done|].
  unfold mbind, M_bind. by rewrite Hx.
Qed.

Section Driver.

Variable remote : nat -> Request -> res value.
Variable Guard_from_pydantic : string -> Guard.
Variable creation_error : string -> option string.

Abbreviation debtDetect := (debtDetect remote).
Abbreviation createGuard := (createGuard Guard_from_pydantic).
Abbreviation main_file := (main_file remote Guard_from_pydantic creation_error).
Abbreviation main_commit := (main_commit remote Guard_from_pydantic creation_error).
Abbreviation main := (main remote Guard_from_pydantic creation_error).

Lemma qualifies_content m :
  qualifies m = true -> exists content, source_code m = Some content.
Proof. unfold qualifies. destruct (source_code m); [eauto | done]. Qed.

(** The four ways in which the body of the file loop ends. *)
Lemma main_file_cases url c m s r s' :
  main_file url c m s = (r, s') ->
  (qualifies m = false /\ r = Ok tt /\ s' = s) \/
  (qualifies m = true /\ (exists e, r = Raise e) /\
   debts s' = debts s /\ disk (world s') = disk (world s)) \/
  (qualifies m = true /\ r = Ok tt /\
   exists content d0 wa wb,
     source_code m = Some content /\
     debtDetect content (createGuard content) wa = (Ok (Some d0), wb) /\
     requests wa = requests (world s) /\
     debts s' = <[hash c := VDict (enrich url (new_path m) d0)]> (debts s) /\
     disk (world s') = <[debts_file_of url := debts s']> (disk (world s))) \/
  (qualifies m = true /\ (exists msg, r = Raise (OSError msg)) /\
   disk (world s) !! debts_file_of url = None /\
   is_Some (creation_error (debts_file_of url)) /\
   exists d0,
     debts s' = <[hash c := VDict (enrich url (new_path m) d0)]> (debts s) /\
     disk (world s') = disk (world s)).
Proof.
  unfold main_file. destruct (qualifies m) eqn:Hq.
  - destruct (qualifies_content m Hq) as [content Hc]. rewrite Hc. simpl.
    unfold mbind, M_bind, io, print_bar, print. simpl.
    destruct (debtDetect content (createGuard content) _) as [[[d0|]|e] wb] eqn:Hd;
      simpl.
    + pose proof Hd as Hf. apply debtDetect_frame in Hf.
      destruct Hf as (Hdisk & _). simpl in Hdisk.
      unfold open_for_writing. simpl.
      destruct (disk wb !! debts_file_of url) as [old|] eqn:Hfile;
        [|destruct (creation_error (debts_file_of url)) as [msg|] eqn:Hcr];
        simpl; intros [= <- <-]; simpl.
      * right; right; left. repeat split; try done.
        eexists content, d0, _, wb. split; [done|]. split; [exact Hd|].
        repeat split; try done. by rewrite Hdisk.
      * right; right; right. rewrite <- Hdisk. repeat split; eauto.
      * right; right; left. repeat split; try done.
        eexists content, d0, _, wb. split; [done|]. split; [exact Hd|].
        repeat split; try done. by rewrite Hdisk.
    + intros [= <- <-]; simpl. right; left. apply debtDetect_frame in Hd.
      destruct Hd as (Hdisk & _). repeat split; eauto.
    + intros [= <- <-]; simpl. right; left. apply debtDetect_frame in Hd.
      destruct Hd as (Hdisk & _). repeat split; eauto.
  - intros [= <- <-]. by left.
Qed.

Lemma main_file_not_qualifying url c m s :
  qualifies m = false -> main_file url c m s = (Ok tt, s).
Proof. intros Hq. unfold main_file. by rewrite Hq. Qed.

Lemma main_file_step url c m s r s' :
  main_file url c m s = (r, s') ->
  store_step creation_error url (hash c) (stored s) (stored s').
Proof.
  intros H. apply main_file_cases in H. unfold stored.
  destruct H as [(_ & _ & ->)|[(_ & _ & Hd & Hk)|[(_ & _ & content & d0 & wa & wb & _ & _ & _ & Hd & Hk)|(_ & _ & Hfile & Hcr & d0 & Hd & Hk)]]].
  - constructor.
  - rewrite Hd, Hk. constructor.
  - rewrite Hk, Hd. constructor.
  - rewrite Hd, Hk. by constructor.
Qed.

(** A commit that is already in the store is passed over. *)
Lemma main_commit_skip url c s :
  already_processed (debts s) c = true -> main_commit url c s = (Ok tt, s).
Proof.
  intros H. unfold main_commit, get_debts, mbind, M_bind. by rewrite H.
Qed.

(** Any other commit has its files analysed, after the two lines that
    announce it. *)
Lemma main_commit_run url c s :
  already_processed (debts s) c = false ->
  exists s0, stored s0 = stored s /\
             requests (world s0) = requests (world s) /\
             main_commit url c s =
             for_each (main_file url c) (modified_files c) s0.
Proof.
  intros H. unfold main_commit, get_debts, mbind, M_bind. rewrite H.
  unfold io, print_bar, print. simpl. eexists. split; [|split]; [| |reflexivity]; done.
Qed.

(** An invariant of the store and the files that every turn of the file
    loop keeps is kept by the loop over a commit's files, by the body of the
    commit loop and by the commit loop. *)
Lemma files_invariant (I : Store * gmap string Store -> Prop) url c files :
  (forall x y, I x -> store_step creation_error url (hash c) x y -> I y) ->
  forall s r s', I (stored s) ->
    for_each (main_file url c) files s = (r, s') -> I (stored s').
Proof.
  intros Hstep s r s' HI H.
  apply (for_each_invariant (fun s => I (stored s)) (main_file url c) files)
    with (s := s) (r := r); [|done|done].
  intros m t q t' _ Ht Hm. eapply Hstep; [exact Ht|]. by eapply main_file_step.
Qed.

Lemma main_commit_invariant (I : Store * gmap string Store -> Prop) url c :
  (forall x y, I x -> store_step creation_error url (hash c) x y -> I y) ->
  forall s r s', I (stored s) -> main_commit url c s = (r, s') -> I (stored s').
Proof.
  intros Hstep s r s' HI H.
  destruct (already_processed (debts s) c) eqn:Hp.
  - rewrite main_commit_skip in H by done. by inversion H; subst.
  - destruct (main_commit_run url c s Hp) as (s0 & Hs0 & _ & Heq).
    rewrite Heq in H. eapply files_invariant; [exact Hstep| |exact H].
    by rewrite Hs0.
Qed.

Lemma commits_invariant (I : Store * gmap string Store -> Prop) url commits :
  (forall c x y, c ∈ commits -> I x -> store_step creation_error url (hash c) x y -> I y) ->
  forall s r s', I (stored s) ->
    for_each (main_commit url) commits s = (r, s') -> I (stored s').
Proof.
  intros Hstep s r s' HI H.
  apply (for_each_invariant (fun s => I (stored s)) (main_commit url) commits)
    with (s := s) (r := r); [|done|done].
  intros c t q t' Hc Ht Hm.
  eapply (main_commit_invariant I url c); [|exact Ht|exact Hm].
  intros x y. by apply Hstep.
Qed.

(** The turn of a qualifying file, by the outcome of the analysis. *)
Lemma main_file_unfold url c m s content :
  qualifies m = true -> source_code m = Some content ->
  main_file url c m s =
  match debtDetect content (createGuard content) (announce_file m (world s)) with
  | (Ok (Some d0), wb) =>
      match disk wb !! debts_file_of url, creation_error (debts_file_of url) with
      | None, Some msg => (Raise (OSError msg), file_unwritten url c m d0 s wb)
      | _, _ => (Ok tt, file_stored url c m d0 s wb)
      end
  | (Ok None, wb) => (Raise none_not_assignable, {| debts := debts s; world := wb |})
  | (Raise e, wb) => (Raise e, {| debts := debts s; world := wb |})
  end.
Proof.
  intros Hq Hc. unfold main_file. rewrite Hq, Hc. simpl.
  unfold mbind, M_bind, io, print_bar, print. simpl.
  unfold announce_file.
  destruct (debtDetect content (createGuard content) _) as [[[d0|]|e] wb];
    try reflexivity.
  simpl. unfold open_for_writing. simpl.
  destruct (disk wb !! debts_file_of url);
    [|destruct (creation_error (debts_file_of url))]; reflexivity.
Qed.

(** The turn of a commit that is not yet in the store. *)
Lemma main_commit_unfold url c s :
  already_processed (debts s) c = false ->
  main_commit url c s
  = for_each (main_file url c) (modified_files c) (announce_commit url c s).
Proof.
  intros H. unfold main_commit, get_debts, mbind, M_bind. rewrite H.
  reflexivity.
Qed.

(** C3 (amended).  [main] has no handler around the analysis.  When the run
    has reached a qualifying file and the analysis of that file raises, or
    returns no validated result (on which the next statement raises
    [TypeError]), [main] raises that error at once, in the world in which
    the analysis ended: it prints nothing about the error, stores nothing
    for the file, and processes neither the files that follow in the commit
    nor the commits that follow. *)
Theorem main_halts_on_error
    pre c before m after post url resume w s1 s2 content r e wb :
  main pre url resume w = (Ok tt, s1) ->
  already_processed (debts s1) c = false ->
  modified_files c = before ++ m :: after ->
  for_each (main_file url c) before (announce_commit url c s1) = (Ok tt, s2) ->
  qualifies m = true ->
  source_code m = Some content ->
  debtDetect content (createGuard content) (announce_file m (world s2)) = (r, wb) ->
  r = Raise e \/ (r = Ok None /\ e = none_not_assignable) ->
  main (pre ++ c :: post) url resume w
  = (Raise e, {| debts := debts s2; world := wb |}).
Proof.
  intros Hpre Hp Hfiles Hbefore Hq Hc Hd Hr.
  unfold main in *. rewrite for_each_app, Hpre. simpl.
  apply bind_Raise. rewrite main_commit_unfold by done.
  rewrite Hfiles, for_each_app, Hbefore. simpl.
  apply bind_Raise. rewrite (main_file_unfold url c m s2 content Hq Hc), Hd.
  destruct Hr as [-> | [-> ->]]; reflexivity.
Qed.

(** The entry of a hash is not touched by the work on commits of another
    hash, and stays in place while its own commits are passed over. *)
Lemma main_commit_keeps_entry url c s r s' h v :
  debts s !! h = Some v -> truthy v = true ->
  main_commit url c s = (r, s') -> debts s' !! h = Some v.
Proof.
  intros Hh Hv H.
  destruct (decide (hash c = h)) as [Heq|Hne].
  - rewrite main_commit_skip in H.
    + by inversion H; subst.
    + unfold already_processed. by rewrite Heq, Hh.
  - refine (main_commit_invariant (fun x => x.1 !! h = Some v) url c _ s r s' Hh H).
    intros x y Hx Hstep. inversion Hstep; subst; simpl in *; [done|..];
      by rewrite lookup_insert_ne.
Qed.

Lemma commits_skip_processed url h v commits : forall s,
  debts s !! h = Some v -> truthy v = true ->
  for_each (main_commit url) commits s =
  for_each (main_commit url) (filter (fun c => hash c <> h) commits) s.
Proof.
  induction commits as [|c commits IH]; intros s Hh Hv; [done|].
  destruct (decide (hash c = h)) as [Heq|Hne].
  - rewrite filter_cons_False by (intros Hc; by apply Hc).
    simpl. unfold mbind, M_bind.
    rewrite main_commit_skip; [by apply IH|].
    unfold already_processed. by rewrite Heq, Hh.
  - rewrite filter_cons_True by done. simpl. unfold mbind, M_bind.
    destruct (main_commit url c s) as [[[]|e] s1] eqn:Hc; [|done].
    apply IH; [|done]. by eapply main_commit_keeps_entry.
Qed.

(** C6.  When the store loaded on resume holds a truthy value for a hash,
    the run is the run on the repository without the commits of that hash:
    same outcome, same store, same requests to the backend, same output.  In
    particular a run over commits of that hash alone does nothing at all. *)
Theorem resume_skips_processed_commit commits url w store h v :
  disk w !! debts_file_of url = Some store ->
  store !! h = Some v ->
  truthy v = true ->
  main commits url true w =
    main (filter (fun c => hash c <> h) commits) url true w /\
  ((forall c, c ∈ commits -> hash c = h) ->
   main commits url true w = (Ok tt, {| debts := store; world := w |})).
Proof.
  intros Hfile Hh Hv.
  assert (Hload : load_debts url true w = store).
  { unfold load_debts. by rewrite Hfile. }
  assert (Heq : main commits url true w =
                main (filter (fun c => hash c <> h) commits) url true w).
  { unfold main. rewrite Hload. by apply (commits_skip_processed url h v). }
  split; [exact Heq|].
  intros Hall. rewrite Heq.
  replace (filter (fun c => hash c <> h) commits) with (@nil Commit).
  - unfold main. by rewrite Hload.
  - symmetry. clear -Hall. induction commits as [|c commits IH]; [done|].
    rewrite filter_cons_False.
    + apply IH. intros c' Hc'. apply Hall. by right.
    + intros Hc. apply Hc, Hall. by left.
Qed.

(** A qualifying file whose turn ends normally was analysed: the validated
    result, enriched, is in the store under the hash of the commit, and the
    file of the repository holds the whole store. *)
Lemma main_file_ok url c m s s' :
  qualifies m = true ->
  main_file url c m s = (Ok tt, s') ->
  exists content d0 wa wb,
    source_code m = Some content /\
    debtDetect content (createGuard content) wa = (Ok (Some d0), wb) /\
    requests wa = requests (world s) /\
    debts s' = <[hash c := VDict (enrich url (new_path m) d0)]> (debts s) /\
    disk (world s') = <[debts_file_of url := debts s']> (disk (world s)).
Proof.
  intros Hq H. apply main_file_cases in H.
  destruct H as [(Hq' & _)|[(_ & (e & He) & _)|[(_ & _ & H)|(_ & (msg & He) & _)]]];
    [congruence | done | exact H | done].
Qed.

Lemma for_each_invariant_ok {S A} (P : S -> Prop) (body : A -> M S unit) xs :
  (forall x s s', P s -> body x s = (Ok tt, s') -> P s') ->
  forall s s', P s -> for_each body xs s = (Ok tt, s') -> P s'.
Proof.
  intros Hbody. induction xs as [|x xs IH]; intros s s' HP; simpl.
  - by intros [= <-].
  - intros H. apply bind_inv in H.
    destruct H as [([] & s1 & H1 & H2)|(e & _ & He)]; [|done].
    eapply IH; [|exact H2]. by eapply Hbody.
Qed.

(** While the store file exists or can be created, no turn of the file loop
    leaves an entry in memory alone. *)
Lemma store_step_writable url h x y :
  store_writable creation_error url x.2 ->
  store_step creation_error url h x y ->
  store_writable creation_error url y.2 /\
  (y = x \/ exists path d0,
     y.1 = <[h := VDict (enrich url path d0)]> x.1 /\
     y.2 = <[debts_file_of url := y.1]> x.2).
Proof.
  intros Hw Hstep. inversion Hstep; subst; simpl in *.
  - split; [done | by left].
  - split; [left; rewrite lookup_insert_eq; eauto | right; eauto].
  - destruct Hw as [[old Hold]|Hw]; [congruence|].
    match goal with H : is_Some _ |- _ => rewrite Hw in H; by destruct H end.
Qed.

(** At the end of a run, however it ends, on a store file that exists or can
    be created: either nothing was stored and the files are as they were, or
    the file of the repository holds the store. *)
Lemma main_store_on_disk url commits resume w r s :
  store_writable creation_error url (disk w) ->
  main commits url resume w = (r, s) ->
  (debts s = load_debts url resume w /\ disk (world s) = disk w) \/
  disk (world s) = <[debts_file_of url := debts s]> (disk w).
Proof.
  intros Hw H. unfold main in H.
  refine (proj2 (commits_invariant
            (fun x => store_writable creation_error url x.2 /\
                      ((x.1 = load_debts url resume w /\ x.2 = disk w) \/
                       x.2 = <[debts_file_of url := x.1]> (disk w)))
            url commits _ _ r s _ H)); [|split; [done | by left]].
  intros c x y _ [Hx HI] Hstep.
  destruct (store_step_writable url (hash c) x y Hx Hstep) as [Hy [->|Hst]];
    [done|].
  split; [done|]. destruct Hst as (path & d0 & _ & Hk). right.
  rewrite Hk. destruct HI as [[_ ->]| ->]; [done|]. by rewrite insert_insert_eq.
Qed.

(** A qualifying file whose turn ends normally found the store file in
    existence or could create it. *)
Lemma main_file_ok_writable url c m s s' :
  qualifies m = true ->
  main_file url c m s = (Ok tt, s') ->
  store_writable creation_error url (disk (world s)).
Proof.
  intros Hq H. destruct (qualifies_content m Hq) as [content Hc].
  rewrite (main_file_unfold url c m s content Hq Hc) in H.
  destruct (debtDetect content (createGuard content) _) as [[[d0|]|e] wb] eqn:Hd;
    [|done|done].
  apply debtDetect_frame in Hd as [Hdisk _]. simpl in Hdisk. rewrite <- Hdisk.
  unfold store_writable.
  destruct (disk wb !! debts_file_of url); [left; eauto|].
  destruct (creation_error (debts_file_of url)); [done | by right].
Qed.

(** A run that ends normally although the store file neither exists nor can
    be created has stored nothing. *)
Lemma main_ok_unwritable url commits resume w s :
  ~ store_writable creation_error url (disk w) ->
  main commits url resume w = (Ok tt, s) ->
  debts s = load_debts url resume w /\ disk (world s) = disk w.
Proof.
  intros Hnw H. unfold main in H.
  assert (Hst : stored s = (load_debts url resume w, disk w));
    [|by inversion Hst].
  refine (for_each_invariant_ok
            (fun u => stored u = (load_debts url resume w, disk w))
            (main_commit url) commits _ _ s _ H); [|done].
  intros c u u' Hu Hc.
  destruct (already_processed (debts u) c) eqn:Hp.
  - rewrite main_commit_skip in Hc by done. by inversion Hc; subst.
  - rewrite main_commit_unfold in Hc by done.
    refine (for_each_invariant_ok
              (fun t => stored t = (load_debts url resume w, disk w))
              (main_file url c) (modified_files c) _ _ u' _ Hc);
      [|by rewrite <- Hu].
    intros m t t' Ht Hm. destruct (qualifies m) eqn:Hq.
    + apply main_file_ok_writable in Hm; [|done].
      inversion Ht as [[Hd Hk]]. rewrite Hk in Hm. done.
    + rewrite main_file_not_qualifying in Hm by done. by inversion Hm; subst.
Qed.

(** At the end of a run that ends normally: either nothing was stored and
    the files are as they were, or the file of the repository holds the
    store. *)
Lemma main_ok_store_on_disk url commits resume w s :
  main commits url resume w = (Ok tt, s) ->
  (debts s = load_debts url resume w /\ disk (world s) = disk w) \/
  disk (world s) = <[debts_file_of url := debts s]> (disk w).
Proof.
  intros H.
  destruct (disk w !! debts_file_of url) as [old|] eqn:Hfile.
  - apply (main_store_on_disk url commits resume w (Ok tt) s); [|done].
    left. rewrite Hfile. eauto.
  - destruct (creation_error (debts_file_of url)) as [msg|] eqn:Hcr.
    + left. apply (main_ok_unwritable url commits resume w s); [|done].
      intros [[old Hold]|Hnone]; congruence.
    + apply (main_store_on_disk url commits resume w (Ok tt) s); [|done].
      by right.
Qed.

(** C7 (amended).  After the analysis of a file has succeeded the enriched
    result is put in the store under the hash of the commit, and the store
    file is then opened for writing and given the whole store.  When the
    turn of the file ends normally the file holds exactly the store in
    memory.  When the file neither exists nor can be created, [open] raises
    [OSError] with the entry in memory alone.  When the file system does not
    refuse the store file, at the end of a run, however it ends, either
    nothing was stored and the files are as they were, or the file holds
    exactly the store in memory; no key that was loaded is ever lost, and a
    resumed run over an existing file always leaves the file equal to the
    store. *)
Theorem store_persisted_after_each_file url :
  (forall c m s s',
     qualifies m = true ->
     main_file url c m s = (Ok tt, s') ->
     exists d0,
       debts s' = <[hash c := VDict (enrich url (new_path m) d0)]> (debts s) /\
       disk (world s') = <[debts_file_of url := debts s']> (disk (world s))) /\
  (forall c m s content d0 wb msg,
     qualifies m = true ->
     source_code m = Some content ->
     debtDetect content (createGuard content) (announce_file m (world s))
       = (Ok (Some d0), wb) ->
     disk (world s) !! debts_file_of url = None ->
     creation_error (debts_file_of url) = Some msg ->
     main_file url c m s = (Raise (OSError msg), file_unwritten url c m d0 s wb) /\
     disk wb = disk (world s)) /\
  (forall commits resume w r s,
     creation_error (debts_file_of url) = None ->
     main commits url resume w = (r, s) ->
     ((debts s = load_debts url resume w /\ disk (world s) = disk w) \/
      disk (world s) = <[debts_file_of url := debts s]> (disk w)) /\
     (forall k, is_Some (load_debts url resume w !! k) -> is_Some (debts s !! k)) /\
     (resume = true -> is_Some (disk w !! debts_file_of url) ->
      disk (world s) !! debts_file_of url = Some (debts s))).
Proof.
  split; [|split].
  - intros c m s s' Hq H.
    destruct (main_file_ok url c m s s' Hq H)
      as (content & d0 & wa & wb & _ & _ & _ & Hd & Hk).
    by exists d0.
  - intros c m s content d0 wb msg Hq Hc Hd Hfile Hcr.
    rewrite (main_file_unfold url c m s content Hq Hc), Hd.
    apply debtDetect_frame in Hd as [Hdisk _]. simpl in Hdisk.
    by rewrite Hdisk, Hfile, Hcr.
  - intros commits resume w r s Hw H.
    pose proof (main_store_on_disk url commits resume w r s
                  (or_intror Hw) H) as HI.
    unfold main in H. set (d0 := load_debts url resume w) in *.
    split; [exact HI|]. split.
    + refine (commits_invariant
                (fun x => forall k, is_Some (d0 !! k) -> is_Some (x.1 !! k))
                url commits _ _ r s _ H); [|done].
      intros c x y _ Hx Hstep k Hk.
      inversion Hstep; subst; simpl in *; [by apply Hx|..];
        (rewrite lookup_insert; case_decide; [done | by apply Hx]).
    + intros -> [old Hold]. destruct HI as [[Hd Hk]| ->].
      * rewrite Hk, Hd, Hold. unfold d0, load_debts. by rewrite Hold.
      * by rewrite lookup_insert_eq.
Qed.

(** C8.  When a commit that is not yet in the store has been processed
    without error and [m] is the last of its files that qualifies, the store
    holds under the hash of the commit the enriched result of [m], whatever
    the files before it stored there; no other key of the store has changed. *)
Theorem last_file_result_survives url c pre m post s s' :
  already_processed (debts s) c = false ->
  modified_files c = pre ++ m :: post ->
  qualifies m = true ->
  Forall (fun m' => qualifies m' = false) post ->
  main_commit url c s = (Ok tt, s') ->
  exists content d0 wa wb,
    source_code m = Some content /\
    debtDetect content (createGuard content) wa = (Ok (Some d0), wb) /\
    debts s' !! hash c = Some (VDict (enrich url (new_path m) d0)) /\
    (forall k, k <> hash c -> debts s' !! k = debts s !! k).
Proof.
  intros Hp Hfiles Hq Hpost H.
  destruct (main_commit_run url c s Hp) as (s0 & Hs0 & _ & Heq).
  rewrite Heq, Hfiles, for_each_app in H.
  destruct (for_each (main_file url c) pre s0) as [[[]|e] s1] eqn:Hpre; [|done].
  simpl in H. apply bind_inv in H.
  destruct H as [([] & s2 & Hm & Hrest)|(e & _ & He)]; [|done].
  rewrite for_each_skip in Hrest.
  2:{ eapply Forall_impl; [exact Hpost|]. intros m' Hm'. simpl.
      by apply main_file_not_qualifying. }
  inversion Hrest; subst s'.
  destruct (main_file_ok url c m s1 s2 Hq Hm)
    as (content & d0 & wa & wb & Hc & Hd & _ & Hdebts & _).
  exists content, d0, wa, wb. split; [done|]. split; [done|].
  rewrite Hdebts. split; [by rewrite lookup_insert_eq|].
  intros k Hk. rewrite lookup_insert_ne by done.
  assert (Hs : debts s0 = debts s) by (by inversion Hs0).
  rewrite <- Hs.
  refine (files_invariant (fun x => x.1 !! k = debts s0 !! k)
            url c pre _ s0 _ s1 _ Hpre); [|done].
  intros x y Hx Hstep. inversion Hstep; subst; simpl in *; [done|..];
    by rewrite lookup_insert_ne.
Qed.

(** C10.  In a run without [resume] over an existing file, the file is not
    loaded: the store starts empty, and the first analysis that succeeds
    leaves in the file that one entry alone.  At the end of the run either
    nothing was stored and the files are as they were, or the file holds the
    store in memory, every entry of which is an enriched result of this run
    under the hash of one of its commits. *)
Theorem fresh_run_overwrites_store commits url w old r s :
  disk w !! debts_file_of url = Some old ->
  main commits url false w = (r, s) ->
  ((debts s = ∅ /\ disk (world s) = disk w) \/
   disk (world s) !! debts_file_of url = Some (debts s)) /\
  (forall k v, debts s !! k = Some v ->
     exists c path d0, c ∈ commits /\ hash c = k /\
                       v = VDict (enrich url path d0)) /\
  (forall c m s',
     qualifies m = true ->
     main_file url c m {| debts := load_debts url false w; world := w |}
       = (Ok tt, s') ->
     exists d0,
       disk (world s') !! debts_file_of url
       = Some {[ hash c := VDict (enrich url (new_path m) d0) ]}).
Proof.
  intros Hold H. split; [|split].
  - destruct (main_store_on_disk url commits false w r s) as [HI| ->];
      [left; rewrite Hold; eauto | done | by left
      | right; by rewrite lookup_insert_eq].
  - unfold main in H.
    refine (commits_invariant
              (fun x => forall k v, x.1 !! k = Some v ->
                 exists c path d0, c ∈ commits /\ hash c = k /\
                                   v = VDict (enrich url path d0))
              url commits _ _ r s _ H); [|done].
    intros c x y Hc Hx Hstep k v.
    inversion Hstep; subst; simpl in *; [by apply Hx|..];
      (rewrite lookup_insert; case_decide as Hk; [|by apply Hx];
       intros [= <-]; eexists c, _, _; split; [done|]; split; [done|reflexivity]).
  - intros c m s' Hq Hm.
    destruct (main_file_ok url c m _ s' Hq Hm)
      as (content & d0 & wa & wb & _ & _ & _ & Hd & Hk).
    exists d0. rewrite Hk, lookup_insert_eq, Hd. simpl.
    by rewrite insert_empty.
Qed.

End Driver.

(** C9.  The name of the store file does not determine the repository: two
    different URLs give the same file, which the runs on both then load and
    overwrite. *)
Theorem debts_file_not_injective :
  exists u1 u2 : string,
    u1 <> u2 /\
    debts_file_of u1 = debts_file_of u2 /\
    (forall resume w, load_debts u1 resume w = load_debts u2 resume w) /\
    (forall store w,
       write_json (debts_file_of u1) store w = write_json (debts_file_of u2) store w).
Proof.
  exists "https://example.org/r", "https_//example.org/r".
  assert (H : debts_file_of "https://example.org/r"
              = debts_file_of "https_//example.org/r") by (vm_compute; reflexivity).
  split; [done|]. split; [exact H|]. split.
  - intros resume w. unfold load_debts. by rewrite H.
  - intros store w. by rewrite H.
Qed.

(** ** The driver on the sample repository *)

(** C3 as stated fails: behind a backend that refuses every request as too
    long, with a guard that lets the error out, the run over two commits
    stops at the first file.  [main] raises, nothing is stored or written,
    the second file of the commit and the second commit are never announced,
    and the last line printed is the announcement of the first file. *)
Lemma main_stops_at_first_error :
  let run := main Sample.too_long Cases.guard_wraps Sample.any_file
                  [Sample.commit3; Sample.commit2] Sample.repo_url false
                  Sample.empty_world in
  (exists e, fst run = Raise e) /\
  debts (snd run) = ∅ /\
  disk (world (snd run)) = ∅ /\
  ~ In (OStr (Text.nl +:+ "Analyzing util.js" +:+ Text.nl))
       (console (world (snd run))) /\
  last (console (world (snd run)))
  = Some (OStr (Text.nl +:+ "Analyzing auth.py" +:+ Text.nl)).
Proof.
  split; [eexists; vm_compute; reflexivity|].
  split; [vm_compute; reflexivity|].
  split; [vm_compute; reflexivity|].
  split; [|vm_compute; reflexivity].
  vm_compute. intros H.
  repeat (destruct H as [H|H]; [discriminate H|]). exact H.
Qed.

Lemma main_halts_on_error_witness :
  let s1 := {| debts := ∅; world := Sample.empty_world |} in
  let s2 := announce_commit Sample.repo_url Sample.commit3 s1 in
  main Sample.too_long Cases.guard_wraps Sample.any_file
       ([] ++ Sample.commit3 :: [Sample.commit2])
       Sample.repo_url false Sample.empty_world
  = (Raise (BackendError "PromptCallableException"
              ("The callable `fn` passed to `Guard(fn, ...)` failed with the following error: `"
               +:+ "Maximum context length is 4097 tokens, the messages have 9000."
               +:+ "`.")),
     {| debts := debts s2;
        world := snd (debtDetect Sample.too_long "key = 1"
                        (createGuard Cases.guard_wraps "key = 1")
                        (announce_file Sample.auth_py (world s2))) |}) /\
  main Sample.healthy Cases.guard_rejects Sample.any_file
       ([] ++ Sample.commit3 :: [Sample.commit2])
       Sample.repo_url false Sample.empty_world
  = (Raise none_not_assignable,
     {| debts := debts s2;
        world := snd (debtDetect Sample.healthy "key = 1"
                        (createGuard Cases.guard_rejects "key = 1")
                        (announce_file Sample.auth_py (world s2))) |}).
Proof.
  intros s1 s2. split.
  - apply (main_halts_on_error Sample.too_long Cases.guard_wraps Sample.any_file
             [] Sample.commit3 [] Sample.auth_py [Sample.util_js] [Sample.commit2]
             Sample.repo_url false Sample.empty_world s1 s2 "key = 1"
             (Raise (BackendError "PromptCallableException"
                ("The callable `fn` passed to `Guard(fn, ...)` failed with the following error: `"
                 +:+ "Maximum context length is 4097 tokens, the messages have 9000."
                 +:+ "`."))));
      [reflexivity | reflexivity | reflexivity | reflexivity | reflexivity
      | reflexivity | vm_compute; reflexivity | by left].
  - apply (main_halts_on_error Sample.healthy Cases.guard_rejects Sample.any_file
             [] Sample.commit3 [] Sample.auth_py [Sample.util_js] [Sample.commit2]
             Sample.repo_url false Sample.empty_world s1 s2 "key = 1" (Ok None));
      [reflexivity | reflexivity | reflexivity | reflexivity | reflexivity
      | reflexivity | vm_compute; reflexivity | by right].
Defined.

Lemma resume_skips_processed_commit_witness :
  let w := with_file (debts_file_of Sample.repo_url) Sample.old_store
                     Sample.empty_world in
  main Sample.healthy Sample.guard_once Sample.any_file [Sample.commit1; Sample.commit2]
       Sample.repo_url true w
  = main Sample.healthy Sample.guard_once Sample.any_file
         (filter (fun c => hash c <> "c1") [Sample.commit1; Sample.commit2])
         Sample.repo_url true w /\
  main Sample.healthy Sample.guard_once Sample.any_file [Sample.commit1; Sample.commit1]
       Sample.repo_url true w
  = (Ok tt, {| debts := Sample.old_store; world := w |}).
Proof.
  split.
  - apply (resume_skips_processed_commit Sample.healthy Sample.guard_once Sample.any_file
             [Sample.commit1; Sample.commit2] Sample.repo_url _ Sample.old_store
             "c1" (VDict [("location", VStr "old.py")]));
      vm_compute; reflexivity.
  - apply (resume_skips_processed_commit Sample.healthy Sample.guard_once Sample.any_file
             [Sample.commit1; Sample.commit1] Sample.repo_url _ Sample.old_store
             "c1" (VDict [("location", VStr "old.py")]));
      [vm_compute; reflexivity ..|].
    intros c Hc. repeat (apply elem_of_cons in Hc as [->|Hc]; [reflexivity|]).
    by apply elem_of_nil in Hc.
Defined.

(** The resumed run on the sample repository asks the backend once, for the
    file of the second commit. *)
Example resume_run_requests :
  length (requests (world (snd
    (main Sample.healthy Sample.guard_once Sample.any_file [Sample.commit1; Sample.commit2]
          Sample.repo_url true
          (with_file (debts_file_of Sample.repo_url) Sample.old_store
                     Sample.empty_world))))) = 1%nat.
Proof. vm_compute. reflexivity. Qed.

(** C7 as stated fails: in a directory in which the store file cannot be
    created, the analysis of a file succeeds and its result is put in the
    store, but [open] raises and [main] ends on [OSError]: the store in memory
    has an entry that no file holds. *)
Lemma store_not_persisted_when_unwritable :
  let run := main Sample.healthy Sample.guard_once Cases.read_only
                  [Sample.commit2] Sample.repo_url false Sample.empty_world in
  (exists msg, fst run = Raise (OSError msg)) /\
  debts (snd run) !! "c2"
  = Some (VDict (enrich Sample.repo_url "util.js" Sample.analysis)) /\
  disk (world (snd run)) !! debts_file_of Sample.repo_url = None.
Proof.
  split; [eexists; vm_compute; reflexivity|].
  split; vm_compute; reflexivity.
Qed.

Lemma store_persisted_after_each_file_witness :
  let s := {| debts := Sample.old_store; world := Sample.empty_world |} in
  let s' := snd (main_file Sample.healthy Sample.guard_once Sample.any_file
                           Sample.repo_url Sample.commit2 Sample.util_js s) in
  let wb := snd (debtDetect Sample.healthy "let a;"
                   (createGuard Sample.guard_once "let a;")
                   (announce_file Sample.util_js Sample.empty_world)) in
  let w := with_file (debts_file_of Sample.repo_url) Sample.old_store
                     Sample.empty_world in
  let t := snd (main Sample.healthy Sample.guard_once Sample.any_file
                     [Sample.commit1; Sample.commit2] Sample.repo_url true w) in
  (exists d0,
     debts s' = <[hash Sample.commit2
                  := VDict (enrich Sample.repo_url (new_path Sample.util_js) d0)]>
                (debts s) /\
     disk (world s') = <[debts_file_of Sample.repo_url := debts s']> (disk (world s))) /\
  (main_file Sample.healthy Sample.guard_once Cases.read_only Sample.repo_url
             Sample.commit2 Sample.util_js s
   = (Raise (OSError ("[Errno 13] Permission denied: '"
                      +:+ debts_file_of Sample.repo_url +:+ "'")),
      file_unwritten Sample.repo_url Sample.commit2 Sample.util_js
                     Sample.analysis s wb) /\
   disk wb = disk (world s)) /\
  disk (world t) !! debts_file_of Sample.repo_url = Some (debts t).
Proof.
  split; [|split].
  - apply (proj1 (store_persisted_after_each_file
                    Sample.healthy Sample.guard_once Sample.any_file
                    Sample.repo_url)).
    + reflexivity.
    + vm_compute. reflexivity.
  - apply (proj1 (proj2 (store_persisted_after_each_file
                    Sample.healthy Sample.guard_once Cases.read_only
                    Sample.repo_url))
             Sample.commit2 Sample.util_js _ "let a;");
      [reflexivity | reflexivity | vm_compute; reflexivity
      | reflexivity | reflexivity].
  - refine (proj2 (proj2 (proj2 (proj2 (store_persisted_after_each_file
                    Sample.healthy Sample.guard_once Sample.any_file
                    Sample.repo_url))
                 [Sample.commit1; Sample.commit2] true
                 (with_file (debts_file_of Sample.repo_url) Sample.old_store
                            Sample.empty_world)
                 (Ok tt) _ _ _)) _ _).
    + reflexivity.
    + vm_compute. reflexivity.
    + reflexivity.
    + vm_compute. eauto.
Defined.

Lemma last_file_result_survives_witness :
  let s := {| debts := ∅; world := Sample.empty_world |} in
  let s' := snd (main_commit Sample.healthy Sample.guard_once Sample.any_file Sample.repo_url
                             Sample.commit3 s) in
  exists content d0 wa wb,
    source_code Sample.util_js = Some content /\
    debtDetect Sample.healthy content
      (createGuard Sample.guard_once content) wa = (Ok (Some d0), wb) /\
    debts s' !! hash Sample.commit3
    = Some (VDict (enrich Sample.repo_url (new_path Sample.util_js) d0)) /\
    (forall k, k <> hash Sample.commit3 -> debts s' !! k = debts s !! k).
Proof.
  apply (last_file_result_survives Sample.healthy Sample.guard_once Sample.any_file
           Sample.repo_url Sample.commit3 [Sample.auth_py] Sample.util_js []).
  - reflexivity.
  - reflexivity.
  - reflexivity.
  - constructor.
  - vm_compute. reflexivity.
Defined.

(** On the sample commit the entry is the result of [util.js], the last of
    its two source files. *)
Example last_file_result_survives_run :
  debts (snd (main Sample.healthy Sample.guard_once Sample.any_file [Sample.commit3]
                   Sample.repo_url false Sample.empty_world))
  = {[ "c3" := VDict (enrich Sample.repo_url "util.js" Sample.analysis) ]}.
Proof. vm_compute. reflexivity. Qed.

Lemma fresh_run_overwrites_store_witness :
  let w := with_file (debts_file_of Sample.repo_url) Sample.old_store
                     Sample.empty_world in
  let s := snd (main Sample.healthy Sample.guard_once Sample.any_file [Sample.commit2]
                     Sample.repo_url false w) in
  ((debts s = ∅ /\ disk (world s) = disk w) \/
   disk (world s) !! debts_file_of Sample.repo_url = Some (debts s)) /\
  (forall k v, debts s !! k = Some v ->
     exists c path d0, c ∈ [Sample.commit2] /\ hash c = k /\
                       v = VDict (enrich Sample.repo_url path d0)) /\
  (forall c m s',
     qualifies m = true ->
     main_file Sample.healthy Sample.guard_once Sample.any_file Sample.repo_url c m
               {| debts := load_debts Sample.repo_url false w; world := w |}
       = (Ok tt, s') ->
     exists d0,
       disk (world s') !! debts_file_of Sample.repo_url
       = Some {[ hash c := VDict (enrich Sample.repo_url (new_path m) d0) ]}).
Proof.
  apply (fresh_run_overwrites_store Sample.healthy Sample.guard_once Sample.any_file
           [Sample.commit2] Sample.repo_url _ Sample.old_store (Ok tt)).
  - vm_compute. reflexivity.
  - vm_compute. reflexivity.
Defined.

(** The old entry of the sample file is gone after the fresh run. *)
Example fresh_run_drops_old_entry :
  disk (world (snd (main Sample.healthy Sample.guard_once Sample.any_file [Sample.commit2]
                         Sample.repo_url false
                         (with_file (debts_file_of Sample.repo_url)
                                    Sample.old_store Sample.empty_world))))
    !! debts_file_of Sample.repo_url
  = Some {[ "c2" := VDict (enrich Sample.repo_url "util.js" Sample.analysis) ]}.
Proof. vm_compute. reflexivity. Qed.

(** * Further properties *)

(** ** The retry wrapper, attempt by attempt *)

Section WrapperRuns.

Variable remote : nat -> Request -> res value.
Variable textwrap_fill : string -> Z -> string.

Abbreviation call_openai_api := (call_openai_api remote textwrap_fill).
Abbreviation call_openai_api_loop := (call_openai_api_loop remote textwrap_fill).
Abbreviation call_openai_api_body := (call_openai_api_body remote textwrap_fill).





(** X3.  Whatever the backend does, the wrapper makes at most [retries]
    requests, each of them the request of [messages], and writes no file. *)
Theorem call_openai_api_request_bound messages retries w :
  (exists k, (k <= Z.to_nat retries)%nat /\
     requests (snd (call_openai_api messages retries w))
     = requests w ++ repeat (chat_request messages) k) /\
  disk (snd (call_openai_api messages retries w)) = disk w.
Proof.
  destruct (call_openai_api messages retries w) as [r w'] eqn:H.
  unfold call_openai_api in H. apply call_openai_api_loop_effects in H.
  simpl. tauto.
Qed.

(** X4.  The failure written for the exhausted budget is never raised: for
    no backend, no messages and no budget does the wrapper end on
    [Exception("Failed to call OpenAI API after multiple retries.")]. *)
Theorem call_openai_api_never_raises_failure messages retries w :
  fst (call_openai_api messages retries w)
  <> Raise (Exception "Failed to call OpenAI API after multiple retries.").
Proof.
  destruct (call_openai_api messages retries w) as [r w'] eqn:H.
  unfold call_openai_api in H. apply call_openai_api_loop_effects in H.
  simpl. intros Hr. destruct H as (_ & _ & He). by apply He in Hr.
Qed.

(** X1.  When the first attempt succeeds the wrapper returns the response at
    once: one request, nothing printed, nothing slept. *)
Theorem call_openai_api_first_success messages retries w response :
  (0 < retries)%Z ->
  remote (length (requests w)) (chat_request messages) = Ok response ->
  call_openai_api messages retries w
  = (Ok response, log_request (chat_request messages) w).
Proof.
  intros Hpos Hr. unfold call_openai_api.
  destruct (Z.to_nat retries) as [|n] eqn:Hn; [lia|]. simpl.
  wrapper_unfold. by rewrite Hr.
Qed.

(** X2.  With a budget that is not positive the wrapper asks nothing and
    returns [None]. *)
Theorem call_openai_api_no_budget messages retries w :
  (retries <= 0)%Z ->
  call_openai_api messages retries w = (Ok VNone, w).
Proof.
  intros H. unfold call_openai_api.
  replace (Z.to_nat retries) with 0%nat by lia. reflexivity.
Qed.


Lemma call_openai_api_loop_silent messages n : forall seconds w,
  (forall k, exists msg,
     remote k (chat_request messages) = Raise (InvalidRequestError msg) /\
     too_long_message msg = false) ->
  call_openai_api_loop messages n seconds w =
  (Ok VNone,
   {| requests := requests w ++ repeat (chat_request messages) n;
      console := console w; sleeps := sleeps w; disk := disk w |}).
Proof.
  induction n as [|n IH]; intros seconds w Hfail; simpl.
  - rewrite app_nil_r. by destruct w.
  - destruct (Hfail (length (requests w))) as (msg & Hr & Hm).
    unfold too_long_message in Hm.
    unfold mbind at 1, M_bind at 1.
    replace (call_openai_api_body messages seconds w)
      with (@Ok (flow value * option N) (Normal, seconds),
            log_request (chat_request messages) w).
    + rewrite IH by done. simpl. by rewrite <- app_assoc.
    + wrapper_unfold. rewrite Hr. simpl. by rewrite Hm.
Qed.

(** X6.  Invalid-request errors that are not about the context length are
    swallowed in silence: the wrapper uses up its budget, prints nothing,
    sleeps nothing, and returns [None]. *)
Theorem call_openai_api_silent_on_invalid_request messages retries w :
  (forall k, exists msg,
     remote k (chat_request messages) = Raise (InvalidRequestError msg) /\
     too_long_message msg = false) ->
  call_openai_api messages retries w =
  (Ok VNone,
   {| requests := requests w ++ repeat (chat_request messages) (Z.to_nat retries);
      console := console w; sleeps := sleeps w; disk := disk w |}).
Proof. intros H. by apply call_openai_api_loop_silent. Qed.


End WrapperRuns.

(** ** The delay named by an error message *)

Lemma all_chars_app p a b :
  all_chars p (a +:+ b) = all_chars p a && all_chars p b.
Proof.
  induction a as [|c a IH]; simpl; [done|].
  rewrite IH. by rewrite andb_assoc.
Qed.

(** [span] splits a string at the end of a run that the next character
    ends. *)
Lemma span_run p a c rest :
  all_chars p a = true -> p c = false ->
  Text.span p (a +:+ String c rest) = (a, String c rest).
Proof.
  intros Ha Hc. induction a as [|d a IH]; simpl in *.
  - by rewrite Hc.
  - apply andb_true_iff in Ha as [Hd Ha]. rewrite Hd, (IH Ha). done.
Qed.

Lemma match_seconds_here_no_digit c rest :
  Text.is_digit c = false -> Text.match_seconds_here (String c rest) = None.
Proof. intros H. unfold Text.match_seconds_here. simpl. by rewrite H. Qed.

Lemma search_seconds_no_digit msg :
  all_chars (fun c => negb (Text.is_digit c)) msg = true ->
  Text.search_seconds msg = None.
Proof.
  induction msg as [|c msg IH]; simpl; [done|].
  intros H. apply andb_true_iff in H as [Hc H].
  apply negb_true_iff in Hc.
  rewrite (match_seconds_here_no_digit c msg Hc). by apply IH.
Qed.

(** X8.  A message of ASCII characters without any digit names no delay. *)
Theorem search_seconds_needs_digit msg :
  all_chars is_ascii msg = true ->
  all_chars (fun c => negb (Text.is_digit c)) msg = true ->
  Text.search_seconds msg = None.
Proof. intros _. apply search_seconds_no_digit. Qed.

Lemma is_space_not_digit c : Text.is_space c = true -> Text.is_digit c = false.
Proof.
  unfold Text.is_space, Text.is_digit. intros H.
  apply orb_true_iff in H as [H|H]; apply andb_true_iff in H as [H1 H2];
    apply Nat.leb_le in H1, H2; apply andb_false_iff;
    left; apply Nat.leb_gt; lia.
Qed.

(** The regular expression at the start of a run of digits that blanks and
    [second] follow. *)
Lemma match_seconds_here_digits digits b blanks rest :
  digits <> EmptyString ->
  all_chars Text.is_digit digits = true ->
  Text.is_space b = true ->
  all_chars Text.is_space blanks = true ->
  Text.match_seconds_here
    (digits +:+ String b blanks +:+ "second" +:+ rest) = Some digits.
Proof.
  intros Hne Hd Hb Hbl. unfold Text.match_seconds_here.
  change (String b blanks +:+ "second" +:+ rest)
    with (String b (blanks +:+ "second" +:+ rest)).
  rewrite (span_run Text.is_digit digits b _ Hd (is_space_not_digit b Hb)).
  destruct digits as [|d digits]; [done|].
  change (String b (blanks +:+ "second" +:+ rest))
    with (String b blanks +:+ String "s" ("econd" +:+ rest)).
  rewrite (span_run Text.is_space (String b blanks) "s" _);
    [|simpl; by rewrite Hb, Hbl|done].
  replace (String.prefix "second" (String "s" ("econd" +:+ rest))) with true;
    [done|].
  simpl. change (EmptyString +:+ rest) with rest. by destruct rest.
Qed.

Lemma search_seconds_skip pre s :
  all_chars (fun c => negb (Text.is_digit c)) pre = true ->
  Text.search_seconds (pre +:+ s) = Text.search_seconds s.
Proof.
  induction pre as [|c pre IH]; simpl; [done|].
  intros H. apply andb_true_iff in H as [Hc H].
  apply negb_true_iff in Hc.
  rewrite (match_seconds_here_no_digit c _ Hc). by apply IH.
Qed.

Lemma search_seconds_here s g :
  Text.match_seconds_here s = Some g -> Text.search_seconds s = Some g.
Proof.
  intros H. destruct s as [|c s]; [by vm_compute in H|].
  change (Text.search_seconds (String c s))
    with (match Text.match_seconds_here (String c s) with
          | Some g' => Some g'
          | None => Text.search_seconds s
          end).
  by rewrite H.
Qed.

(** The decimal digits of a number, read back. *)
Lemma fold_digits_acc d : forall a : positive,
  fold_left (fun acc c => (10 * acc + N.of_nat (nat_of_ascii c - 48))%N)
            (list_ascii_of_string (NilEmpty.string_of_uint d)) (Npos a)
  = Npos (Pos.of_uint_acc d a).
Proof.
  induction d; intros a; simpl; [done|..]; rewrite <- IHd; f_equal; lia.
Qed.

Lemma fold_digits d :
  fold_left (fun acc c => (10 * acc + N.of_nat (nat_of_ascii c - 48))%N)
            (list_ascii_of_string (NilEmpty.string_of_uint d)) 0%N
  = Pos.of_uint d.
Proof.
  induction d; simpl; [done| exact IHd |..]; apply fold_digits_acc.
Qed.

Lemma string_of_uint_digits d :
  all_chars Text.is_digit (NilEmpty.string_of_uint d) = true.
Proof. induction d; simpl; done. Qed.

Lemma str_of_N_digits n :
  Text.str_of_N n <> EmptyString /\
  all_chars Text.is_digit (Text.str_of_N n) = true.
Proof.
  unfold Text.str_of_N, NilZero.string_of_uint.
  destruct (N.to_uint n) eqn:E; try done;
    (split; [done | apply (string_of_uint_digits (_ u))]).
Qed.

Lemma int_digits_roundtrip n : Text.int_of_digits (Text.str_of_N n) = n.
Proof.
  unfold Text.int_of_digits, Text.str_of_N, NilZero.string_of_uint.
  rewrite <- (DecimalN.Unsigned.of_to n) at 2. unfold N.of_uint.
  destruct (N.to_uint n) eqn:E; try apply fold_digits. reflexivity.
Qed.

(** X7.  In a message that, after ASCII text without digits, reads a number
    of at most 4300 digits, a blank and [second], the regular expression
    finds that number: the delay taken from the message is the number
    written in it. *)
Theorem search_seconds_finds_delay pre n b blanks rest :
  all_chars is_ascii pre = true ->
  all_chars (fun c => negb (Text.is_digit c)) pre = true ->
  (String.length (Text.str_of_N n) <= 4300)%nat ->
  Text.is_space b = true ->
  all_chars Text.is_space blanks = true ->
  Text.search_seconds
    (pre +:+ Text.str_of_N n +:+ String b blanks +:+ "second" +:+ rest)
  = Some (Text.str_of_N n) /\
  Text.int_of_digits (Text.str_of_N n) = n.
Proof.
  intros _ Hpre _ Hb Hbl. split; [|apply int_digits_roundtrip].
  rewrite search_seconds_skip by done.
  apply search_seconds_here.
  destruct (str_of_N_digits n) as [Hne Hd].
  by apply match_seconds_here_digits.
Qed.

(** ** The name of the store file *)

Lemma length_append a b :
  String.length (a +:+ b) = (String.length a + String.length b)%nat.
Proof. induction a as [|c a IH]; simpl; [done | by rewrite IH]. Qed.

Lemma length_map_chars f s :
  String.length (Text.map_chars f s) = String.length s.
Proof. induction s as [|c s IH]; simpl; [done | by rewrite IH]. Qed.

Lemma url_to_filename_safe url : filename_safe (url_to_filename url) = true.
Proof.
  unfold filename_safe, url_to_filename.
  induction url as [|c url IH]; simpl; [done|].
  rewrite IH, andb_true_r.
  destruct (Text.invalid_filename_char c) eqn:E; [done | by rewrite E].
Qed.

Lemma url_to_filename_on_safe s : filename_safe s = true -> url_to_filename s = s.
Proof.
  unfold filename_safe, url_to_filename.
  induction s as [|c s IH]; simpl; [done|].
  intros H. apply andb_true_iff in H as [Hc H].
  apply negb_true_iff in Hc. by rewrite Hc, IH.
Qed.

(** X9.  The name of the store file has none of the characters that
    [url_to_filename] replaces, so in particular no path separator: the
    store is a file of the working directory.  The name is as long as the
    URL plus the eleven characters of the suffix. *)
Theorem debts_file_of_safe url :
  filename_safe (debts_file_of url) = true /\
  lacks "/" (debts_file_of url) = true /\
  String.length (debts_file_of url) = (String.length url + 11)%nat.
Proof.
  assert (Hsafe : filename_safe (debts_file_of url) = true).
  { unfold debts_file_of, filename_safe. rewrite all_chars_app.
    fold (filename_safe (url_to_filename url)).
    by rewrite url_to_filename_safe. }
  split; [exact Hsafe|]. split.
  - revert Hsafe. unfold filename_safe, lacks.
    generalize (debts_file_of url). intros s.
    induction s as [|c s IH]; simpl; [done|].
    intros H. apply andb_true_iff in H as [Hc H]. rewrite (IH H), andb_true_r.
    destruct (Ascii.eqb c "/") eqn:E; [|done].
    apply Ascii.eqb_eq in E. subst c. done.
  - unfold debts_file_of, url_to_filename.
    rewrite length_append, length_map_chars. reflexivity.
Qed.

(** X10.  [url_to_filename] changes nothing in a name that is already safe,
    and so applying it twice is applying it once. *)
Theorem url_to_filename_idempotent url :
  url_to_filename (url_to_filename url) = url_to_filename url /\
  (filename_safe url = true -> url_to_filename url = url).
Proof.
  split; [|apply url_to_filename_on_safe].
  apply url_to_filename_on_safe, url_to_filename_safe.
Qed.

(** ** Source files *)

Lemma substring_all s : String.substring 0 (String.length s) s = s.
Proof. induction s as [|c s IH]; simpl; [done | by rewrite IH]. Qed.

Lemma drop_str_suffix i s : exists pre, s = pre +:+ Text.drop_str i s.
Proof.
  unfold Text.drop_str. generalize (Z.to_nat i). clear i. intros n.
  revert s. induction n as [|n IH]; intros s.
  - exists EmptyString. rewrite Nat.sub_0_r, substring_all. reflexivity.
  - destruct s as [|c s].
    + exists EmptyString. reflexivity.
    + destruct (IH s) as [pre Hpre]. exists (String c pre).
      rewrite Hpre at 1. reflexivity.
Qed.

Lemma existsb_eqb_In ext l :
  existsb (String.eqb ext) l = true <-> In ext l.
Proof.
  rewrite existsb_exists. split.
  - intros (x & Hx & E). apply String.eqb_eq in E. by subst.
  - intros H. exists ext. split; [done | apply String.eqb_refl].
Qed.

(** X11.  A name that [is_source_code] accepts ends with one of the listed
    extensions, in the same letter case. *)
Theorem is_source_code_suffix filename :
  is_source_code filename = true ->
  exists stem ext, filename = stem +:+ ext /\ In ext source_code_extensions.
Proof.
  unfold is_source_code. intros H. apply existsb_eqb_In in H.
  unfold Text.splitext_ext in *.
  destruct (_ <? _)%Z; [|simpl in H; intuition discriminate].
  destruct (Text.splitext_scan _ _ _); [|simpl in H; intuition discriminate].
  destruct (drop_str_suffix (Text.rfind "." filename) filename) as [pre Hpre].
  eauto.
Qed.

Lemma rfind_from_lacks c s : forall i found,
  lacks c s = true -> Text.rfind_from c s i found = found.
Proof.
  induction s as [|d s IH]; intros i found; simpl; [done|].
  intros H. apply andb_true_iff in H as [Hd H].
  apply negb_true_iff in Hd. rewrite Hd. by apply IH.
Qed.

Lemma rfind_from_bounds c s : forall i found,
  (-1 <= found < i)%Z -> (0 <= i)%Z ->
  (-1 <= Text.rfind_from c s i found < i + Z.of_nat (String.length s))%Z.
Proof.
  induction s as [|d s IH]; intros i found Hf Hi; simpl String.length; simpl Text.rfind_from.
  - lia.
  - destruct (Ascii.eqb d c).
    + specialize (IH (i + 1)%Z i). lia.
    + specialize (IH (i + 1)%Z found). lia.
Qed.

Lemma rfind_bounds c s :
  (-1 <= Text.rfind c s < Z.of_nat (String.length s))%Z.
Proof.
  unfold Text.rfind. pose proof (rfind_from_bounds c s 0 (-1)). lia.
Qed.

(** X12.  A name without a dot is never a source file. *)
Theorem is_source_code_needs_dot filename :
  lacks "." filename = true -> is_source_code filename = false.
Proof.
  intros H. unfold is_source_code, Text.splitext_ext.
  unfold Text.rfind at 2. rewrite rfind_from_lacks by done.
  pose proof (rfind_bounds "/" filename) as Hb.
  destruct (Z.ltb_spec (Text.rfind "/" filename) (-1)); [lia|].
  reflexivity.
Qed.

Lemma append_assoc a b c : (a +:+ b) +:+ c = a +:+ (b +:+ c).
Proof.
  induction a as [|d a IH]; [reflexivity|].
  change (String d ((a +:+ b) +:+ c) = String d (a +:+ (b +:+ c))).
  by rewrite IH.
Qed.

Lemma rfind_from_app c a b : forall i found,
  Text.rfind_from c (a +:+ b) i found
  = Text.rfind_from c b (i + Z.of_nat (String.length a))
                    (Text.rfind_from c a i found).
Proof.
  induction a as [|d a IH]; intros i found.
  - change (EmptyString +:+ b) with b. simpl. by rewrite Z.add_0_r.
  - change (String d a +:+ b) with (String d (a +:+ b)).
    simpl Text.rfind_from. rewrite IH. simpl String.length.
    f_equal. lia.
Qed.

Lemma get_app_at a c b :
  String.get (String.length a) (a +:+ String c b) = Some c.
Proof. induction a as [|d a IH]; [reflexivity | exact IH]. Qed.

Lemma substring_app_right a b :
  String.substring (String.length a) (String.length b) (a +:+ b) = b.
Proof. induction a as [|d a IH]; [apply substring_all | exact IH]. Qed.

Lemma drop_str_app a b :
  Text.drop_str (Z.of_nat (String.length a)) (a +:+ b) = b.
Proof.
  unfold Text.drop_str. rewrite Nat2Z.id, length_append.
  replace (String.length a + String.length b - String.length a)%nat
    with (String.length b) by lia.
  apply substring_app_right.
Qed.

(** The scan of [splitext] succeeds when a character that is not a dot lies
    in its range. *)
Lemma splitext_scan_finds p c q : forall steps j,
  (0 <= j <= q)%Z -> (q < j + Z.of_nat steps)%Z ->
  String.get (Z.to_nat q) p = Some c -> c <> "."%char ->
  Text.splitext_scan p j steps = true.
Proof.
  induction steps as [|k IH]; intros j Hj Hq Hget Hc; [lia|].
  simpl. destruct (String.get (Z.to_nat j) p) as [d|] eqn:Hd; [|done].
  destruct (Ascii.eqb d ".") eqn:E; [|done].
  apply Ascii.eqb_eq in E. subst d.
  apply IH; [|lia|done|done].
  destruct (decide (j = q)) as [->|Hne]; [congruence | lia].
Qed.

Lemma all_chars_lacks_first c d s :
  lacks c (String d s) = true -> d <> c.
Proof.
  unfold lacks. simpl. intros H. apply andb_true_iff in H as [H _].
  apply negb_true_iff, Ascii.eqb_neq in H. done.
Qed.

(** X13.  A name made of any prefix, a non-empty stem without dot or slash,
    and a listed extension is a source file: the directories of a path, and
    the dots in them, do not matter. *)
Theorem is_source_code_accepts pre stem ext :
  stem <> EmptyString ->
  lacks "." stem = true ->
  lacks "/" stem = true ->
  In ext source_code_extensions ->
  is_source_code (pre +:+ stem +:+ ext) = true.
Proof.
  intros Hne Hdot Hsl Hext.
  assert (Hshape : extension_shape ext = true).
  { assert (H : forallb extension_shape source_code_extensions = true)
      by (vm_compute; reflexivity).
    rewrite forallb_forall in H. by apply H. }
  destruct ext as [|c0 e]; [done|]. simpl in Hshape.
  apply andb_true_iff in Hshape as [Hshape He2].
  apply andb_true_iff in Hshape as [Hc0 He1].
  apply Ascii.eqb_eq in Hc0. subst c0.
  destruct stem as [|s0 stem]; [done|].
  pose proof (all_chars_lacks_first _ _ _ Hdot) as Hs0.
  set (L := (Z.of_nat (String.length pre) + Z.of_nat (String.length (String s0 stem)))%Z).
  assert (Hsep : Text.rfind "/" (pre +:+ String s0 stem +:+ String "." e)
                 = Text.rfind "/" pre).
  { unfold Text.rfind. rewrite rfind_from_app.
    apply rfind_from_lacks. unfold lacks in *. rewrite all_chars_app.
    rewrite Hsl. simpl. exact He2. }
  assert (Hdt : Text.rfind "." (pre +:+ String s0 stem +:+ String "." e) = L).
  { unfold Text.rfind. rewrite !rfind_from_app. simpl Text.rfind_from at 1.
    rewrite rfind_from_lacks by exact He1. unfold L. simpl String.length. lia. }
  pose proof (rfind_bounds "/" pre) as Hb.
  unfold is_source_code, Text.splitext_ext. rewrite Hsep, Hdt.
  assert (HL : (Z.of_nat (String.length pre) < L)%Z)
    by (unfold L; simpl String.length; lia).
  destruct (Z.ltb_spec (Text.rfind "/" pre) L); [|lia].
  rewrite (splitext_scan_finds _ s0 (Z.of_nat (String.length pre)));
    [|lia|lia| |done].
  - apply existsb_eqb_In.
    replace (Text.drop_str L (pre +:+ String s0 stem +:+ String "." e))
      with (String "." e); [done|].
    rewrite <- append_assoc.
    replace L with (Z.of_nat (String.length (pre +:+ String s0 stem)))
      by (rewrite length_append; unfold L; lia).
    by rewrite drop_str_app.
  - rewrite Nat2Z.id.
    change (String s0 stem +:+ String "." e)
      with (String s0 (stem +:+ String "." e)).
    apply get_app_at.
Qed.

Lemma rfind_from_shift c s : forall i found,
  Text.rfind_from c s i found
  = (if (Text.rfind c s <? 0)%Z then found else i + Text.rfind c s)%Z.
Proof.
  unfold Text.rfind.
  induction s as [|d s IH]; intros i found; [reflexivity|].
  simpl Text.rfind_from. rewrite (IH (i + 1)%Z), (IH (0 + 1)%Z).
  pose proof (rfind_bounds c s) as Hb. unfold Text.rfind in Hb.
  destruct (Z.ltb_spec (Text.rfind_from c s 0 (-1)) 0) as [Hlt|Hge].
  - destruct (Ascii.eqb d c).
    + destruct (Z.ltb_spec 0 0); lia.
    + destruct (Z.ltb_spec (-1) 0); [done | lia].
  - destruct (Z.ltb_spec (0 + 1 + Text.rfind_from c s 0 (-1)) 0); lia.
Qed.

Lemma get_app_shift a b n :
  String.get (String.length a + n) (a +:+ b) = String.get n b.
Proof. induction a as [|d a IH]; [reflexivity | exact IH]. Qed.

Lemma substring_app_shift a b n m :
  String.substring (String.length a + n) m (a +:+ b) = String.substring n m b.
Proof. induction a as [|d a IH]; [reflexivity | exact IH]. Qed.

Lemma splitext_scan_shift a b : forall steps j,
  (0 <= j)%Z ->
  Text.splitext_scan (a +:+ b) (Z.of_nat (String.length a) + j) steps
  = Text.splitext_scan b j steps.
Proof.
  induction steps as [|k IH]; intros j Hj; [reflexivity|].
  simpl.
  replace (Z.to_nat (Z.of_nat (String.length a) + j))
    with (String.length a + Z.to_nat j)%nat by lia.
  rewrite get_app_shift.
  replace (Z.of_nat (String.length a) + j + 1)%Z
    with (Z.of_nat (String.length a) + (j + 1))%Z by lia.
  rewrite IH by lia. done.
Qed.

Lemma drop_str_shift a b i :
  (0 <= i)%Z ->
  Text.drop_str (Z.of_nat (String.length a) + i) (a +:+ b) = Text.drop_str i b.
Proof.
  intros Hi. unfold Text.drop_str.
  replace (Z.to_nat (Z.of_nat (String.length a) + i))
    with (String.length a + Z.to_nat i)%nat by lia.
  rewrite substring_app_shift, length_append. f_equal. lia.
Qed.

(** X14.  Only the part of a path after its last slash decides: a file is a
    source file in a directory exactly when it is one on its own, whatever
    dots the names of the directories have. *)
Theorem is_source_code_basename dir name :
  lacks "/" name = true ->
  is_source_code (dir +:+ "/" +:+ name) = is_source_code name.
Proof.
  intros Hsl. unfold is_source_code. f_equal. unfold Text.splitext_ext.
  set (a := dir +:+ "/").
  assert (Hp : dir +:+ "/" +:+ name = a +:+ name)
    by (unfold a; by rewrite append_assoc).
  assert (Hla : Z.of_nat (String.length a) = (Z.of_nat (String.length dir) + 1)%Z)
    by (unfold a; rewrite length_append; simpl; lia).
  assert (Hsep : Text.rfind "/" (dir +:+ "/" +:+ name)
                 = Z.of_nat (String.length dir)).
  { unfold Text.rfind. rewrite rfind_from_app.
    change ("/" +:+ name) with (String "/" name). simpl Text.rfind_from.
    rewrite rfind_from_lacks by done. lia. }
  assert (Hsep' : Text.rfind "/" name = (-1)%Z)
    by (unfold Text.rfind; by apply rfind_from_lacks).
  assert (Hdot : Text.rfind "." (dir +:+ "/" +:+ name)
                 = if (Text.rfind "." name <? 0)%Z then Text.rfind "." dir
                   else (Z.of_nat (String.length a) + Text.rfind "." name)%Z).
  { unfold Text.rfind at 1. rewrite rfind_from_app.
    change ("/" +:+ name) with (String "/" name). simpl Text.rfind_from.
    rewrite rfind_from_shift. fold (Text.rfind "." dir).
    destruct (_ <? 0)%Z; [done | lia]. }
  rewrite Hsep, Hsep', Hdot.
  pose proof (rfind_bounds "." name) as Hb.
  pose proof (rfind_bounds "." dir) as Hb'.
  destruct (Z.ltb_spec (Text.rfind "." name) 0) as [Hlt|Hge].
  - destruct (Z.ltb_spec (Z.of_nat (String.length dir)) (Text.rfind "." dir));
      [lia|].
    destruct (Z.ltb_spec (-1) (Text.rfind "." name)); [lia | done].
  - destruct (Z.ltb_spec (Z.of_nat (String.length dir))
                (Z.of_nat (String.length a) + Text.rfind "." name)); [|lia].
    destruct (Z.ltb_spec (-1) (Text.rfind "." name)); [|lia].
    rewrite Hp.
    replace (Z.of_nat (String.length dir) + 1)%Z
      with (Z.of_nat (String.length a) + 0)%Z by lia.
    rewrite splitext_scan_shift by lia.
    replace (Z.to_nat (Z.of_nat (String.length a) + Text.rfind "." name
                       - (Z.of_nat (String.length a) + 0)))
      with (Z.to_nat (Text.rfind "." name - (-1 + 1))) by lia.
    change (-1 + 1)%Z with 0%Z.
    rewrite drop_str_shift by lia. done.
Qed.

(** ** One file of a commit *)

Section FileTurn.

Variable remote : nat -> Request -> res value.
Variable Guard_from_pydantic : string -> Guard.
Variable creation_error : string -> option string.

Abbreviation debtDetect := (debtDetect remote).
Abbreviation createGuard := (createGuard Guard_from_pydantic).
Abbreviation main_file := (main_file remote Guard_from_pydantic creation_error).

(** X15.  When the guard returns no validated result ([None]), the driver
    fails on the first item assignment: the turn of the file raises
    [TypeError], and nothing is stored or written. *)
Theorem main_file_none_result url c m s content wb :
  qualifies m = true ->
  source_code m = Some content ->
  debtDetect content (createGuard content) (announce_file m (world s))
    = (Ok None, wb) ->
  main_file url c m s
  = (Raise none_not_assignable, {| debts := debts s; world := wb |}) /\
  disk wb = disk (world s).
Proof.
  intros Hq Hc Hd. rewrite (main_file_unfold remote Guard_from_pydantic creation_error url c m s content Hq Hc), Hd.
  split; [done|]. apply debtDetect_frame in Hd. simpl in Hd. tauto.
Qed.


End FileTurn.

(** X16.  The enrichment sets [location] and [repository], replacing what the
    result may hold under these keys, and keeps every other field of the
    result. *)
Theorem enrich_fields url path d0 :
  dict_get "location" (enrich url path d0) = Some (VStr path) /\
  dict_get "repository" (enrich url path d0) = Some (VStr url) /\
  (forall k, k <> "location" -> k <> "repository" ->
             dict_get k (enrich url path d0) = dict_get k d0).
Proof.
  split; [apply enrich_location|]. split; [apply enrich_repository|].
  intros k H1 H2. unfold enrich. by rewrite !dict_get_set_ne.
Qed.

(** ** Whole runs *)

Lemma has_source_file_false c :
  has_source_file c = false ->
  Forall (fun m => qualifies m = false) (modified_files c).
Proof.
  unfold has_source_file. induction (modified_files c) as [|m ms IH]; simpl.
  - constructor.
  - intros H. apply orb_false_iff in H as [Hm H]. constructor; [done | by apply IH].
Qed.

Lemma has_source_file_split c :
  has_source_file c = true ->
  exists pre m post, modified_files c = pre ++ m :: post /\ qualifies m = true.
Proof.
  unfold has_source_file. intros H. apply existsb_exists in H as (m & Hin & Hq).
  apply in_split in Hin as (pre & post & ->). eauto.
Qed.

Section Runs.

Variable remote : nat -> Request -> res value.
Variable Guard_from_pydantic : string -> Guard.
Variable creation_error : string -> option string.

Abbreviation main_file := (main_file remote Guard_from_pydantic creation_error).
Abbreviation main_commit := (main_commit remote Guard_from_pydantic creation_error).
Abbreviation main := (main remote Guard_from_pydantic creation_error).

(** A commit that is already in the store, or has no source file, changes
    neither the store nor the backend log nor the files. *)
Lemma main_commit_quiet url c s :
  already_processed (debts s) c = true \/ has_source_file c = false ->
  exists s', main_commit url c s = (Ok tt, s') /\
             debts s' = debts s /\
             requests (world s') = requests (world s) /\
             sleeps (world s') = sleeps (world s) /\
             disk (world s') = disk (world s).
Proof.
  intros H. destruct (already_processed (debts s) c) eqn:Hp.
  - exists s. by rewrite main_commit_skip.
  - destruct H as [H|H]; [done|].
    unfold main_commit, get_debts, mbind, M_bind. rewrite Hp.
    unfold io, print_bar, print. simpl.
    eexists. split.
    + apply for_each_skip. eapply Forall_impl; [apply has_source_file_false, H|].
      intros m Hm. simpl. by apply main_file_not_qualifying.
    + done.
Qed.

Lemma commits_quiet url commits : forall s,
  (forall c, In c commits ->
     already_processed (debts s) c = true \/ has_source_file c = false) ->
  exists s', for_each (main_commit url) commits s = (Ok tt, s') /\
             debts s' = debts s /\
             requests (world s') = requests (world s) /\
             sleeps (world s') = sleeps (world s) /\
             disk (world s') = disk (world s).
Proof.
  induction commits as [|c commits IH]; intros s H.
  - exists s. done.
  - destruct (main_commit_quiet url c s) as (s1 & Hc & Hd & Hr & Hs & Hk).
    { apply H. by left. }
    destruct (IH s1) as (s' & Hrest & Hd' & Hr' & Hs' & Hk').
    { intros c' Hc'. rewrite Hd. apply H. by right. }
    exists s'. simpl. unfold mbind, M_bind. rewrite Hc.
    repeat split; congruence.
Qed.

(** X17.  A run in which every commit is already in the loaded store or has
    no source file ends normally without any request to the backend, and
    leaves the store and the files as they were: no store file is created
    for a repository without source files. *)
Theorem main_quiet_run commits url resume w :
  (forall c, In c commits ->
     already_processed (load_debts url resume w) c = true \/
     has_source_file c = false) ->
  exists s, main commits url resume w = (Ok tt, s) /\
            debts s = load_debts url resume w /\
            requests (world s) = requests w /\
            sleeps (world s) = sleeps w /\
            disk (world s) = disk w.
Proof. intros H. unfold main. by apply commits_quiet. Qed.

(** An entry with a truthy value stays truthy through the turns of the file
    loop. *)
Lemma truthy_entry_kept url h h' x y :
  (exists v, x.1 !! h = Some v /\ truthy v = true) ->
  store_step creation_error url h' x y ->
  exists v, y.1 !! h = Some v /\ truthy v = true.
Proof.
  intros Hx Hstep. inversion Hstep; subst; simpl in *; [done|..];
    (rewrite lookup_insert; case_decide; [|done];
     eexists; split; [done | apply enrich_truthy]).
Qed.

Lemma already_processed_iff d c :
  already_processed d c = true <->
  exists v, d !! hash c = Some v /\ truthy v = true.
Proof.
  unfold already_processed. destruct (d !! hash c) as [v|].
  - split; [eauto | by intros (v' & [= <-] & Hv)].
  - split; [done | by intros (v' & Hv & _)].
Qed.

(** After its turn has ended normally, a commit with a source file is in the
    store. *)
Lemma main_commit_covers url c s s' :
  has_source_file c = true ->
  main_commit url c s = (Ok tt, s') ->
  already_processed (debts s') c = true.
Proof.
  intros Hsrc H. destruct (already_processed (debts s) c) eqn:Hp.
  - rewrite main_commit_skip in H by done. by inversion H; subst.
  - destruct (main_commit_run remote Guard_from_pydantic creation_error url c s Hp)
      as (s0 & _ & _ & Heq).
    rewrite Heq in H.
    destruct (has_source_file_split c Hsrc) as (pre & m & post & Hfiles & Hq).
    rewrite Hfiles, for_each_app in H.
    destruct (for_each (main_file url c) pre s0) as [[[]|e] s1]; [|done].
    simpl in H. apply bind_inv in H.
    destruct H as [([] & s2 & Hm & Hrest)|(e & _ & He)]; [|done].
    apply already_processed_iff.
    refine (files_invariant remote Guard_from_pydantic creation_error
              (fun x => exists v, x.1 !! hash c = Some v /\ truthy v = true)
              url c post _ s2 _ s' _ Hrest).
    + intros x y. apply truthy_entry_kept.
    + destruct (main_file_ok remote Guard_from_pydantic creation_error url c m s1 s2 Hq Hm)
        as (content & d0 & wa & wb & _ & _ & _ & Hd & _).
      simpl. rewrite Hd, lookup_insert_eq. eexists. split; [done|].
      apply enrich_truthy.
Qed.

Lemma commits_cover url commits : forall s s',
  for_each (main_commit url) commits s = (Ok tt, s') ->
  forall c, In c commits -> has_source_file c = true ->
            already_processed (debts s') c = true.
Proof.
  induction commits as [|c0 commits IH]; intros s s' H c Hin Hsrc; [done|].
  simpl in H. apply bind_inv in H.
  destruct H as [([] & s1 & Hc0 & Hrest)|(e & _ & He)]; [|done].
  destruct Hin as [->|Hin]; [|by eapply IH].
  apply already_processed_iff.
  refine (commits_invariant remote Guard_from_pydantic creation_error
            (fun x => exists v, x.1 !! hash c = Some v /\ truthy v = true)
            url commits _ s1 _ s' _ Hrest).
  - intros c' x y _. apply truthy_entry_kept.
  - apply already_processed_iff. by eapply main_commit_covers.
Qed.

(** X18.  A run that ends normally leaves in the store a non-empty entry
    for every commit that has a source file. *)
Theorem main_covers_commits commits url resume w s c :
  main commits url resume w = (Ok tt, s) ->
  In c commits ->
  has_source_file c = true ->
  already_processed (debts s) c = true.
Proof. unfold main. intros H. by eapply commits_cover. Qed.

(** X19.  Running again with [resume] after a run that ended normally asks
    the backend nothing and changes neither the store nor the files. *)
Theorem main_rerun_idempotent commits url resume w s :
  main commits url resume w = (Ok tt, s) ->
  exists s2, main commits url true (world s) = (Ok tt, s2) /\
             debts s2 = load_debts url true (world s) /\
             requests (world s2) = requests (world s) /\
             sleeps (world s2) = sleeps (world s) /\
             disk (world s2) = disk (world s).
Proof.
  intros H.
  destruct (commits_quiet url commits
              {| debts := load_debts url true (world s); world := world s |})
    as (s2 & Hrun & Hrest); [|by exists s2].
  simpl. intros c Hin. destruct (has_source_file c) eqn:Hsrc; [left | by right].
  pose proof (commits_cover url commits _ s H c Hin Hsrc) as Hcov.
  destruct (main_ok_store_on_disk remote Guard_from_pydantic creation_error
              url commits resume w s H) as [[Hd Hk]|Hk].
  - destruct resume.
    + unfold load_debts in *. by rewrite Hk, <- Hd.
    + unfold load_debts in Hd. rewrite Hd in Hcov.
      unfold already_processed in Hcov. by rewrite lookup_empty in Hcov.
  - unfold load_debts. by rewrite Hk, lookup_insert_eq.
Qed.

(** X20.  A run of [main], however it ends, touches no file but the store
    file of the repository. *)
Theorem main_only_touches_its_file commits url resume w name :
  name <> debts_file_of url ->
  disk (world (snd (main commits url resume w))) !! name = disk w !! name.
Proof.
  intros Hne. destruct (main commits url resume w) as [r s] eqn:H. simpl.
  unfold main in H.
  refine (commits_invariant remote Guard_from_pydantic creation_error
            (fun x => x.2 !! name = disk w !! name)
            url commits _ _ r s _ H); [|done].
  intros c x y Hc Hx Hstep. inversion Hstep; subst; simpl in *; [done| |done].
  by rewrite lookup_insert_ne.
Qed.

(** X21.  Entries under hashes that are not hashes of the commits of the run
    are as they were loaded: a run neither drops nor changes results of
    other commits. *)
Theorem main_keeps_other_entries commits url resume w k :
  (forall c, In c commits -> hash c <> k) ->
  debts (snd (main commits url resume w)) !! k = load_debts url resume w !! k.
Proof.
  intros Hk. destruct (main commits url resume w) as [r s] eqn:H. simpl.
  unfold main in H.
  refine (commits_invariant remote Guard_from_pydantic creation_error
            (fun x => x.1 !! k = load_debts url resume w !! k)
            url commits _ _ r s _ H); [|done].
  intros c x y Hc Hx Hstep. inversion Hstep; subst; simpl in *; [done|..];
    (rewrite lookup_insert_ne; [done|]; apply Hk; by apply list_elem_of_In).
Qed.

End Runs.

(** ** The further properties on the sample inputs *)

Lemma call_openai_api_first_success_witness :
  call_openai_api Sample.healthy Sample.fill Sample.messages 3 Sample.empty_world
  = (Ok (VStr "{}"), log_request (chat_request Sample.messages) Sample.empty_world).
Proof.
  apply (call_openai_api_first_success Sample.healthy Sample.fill);
    [lia | reflexivity].
Defined.

Lemma call_openai_api_no_budget_witness :
  call_openai_api Sample.throttled Sample.fill Sample.messages 0 Sample.empty_world
  = (Ok VNone, Sample.empty_world).
Proof. apply (call_openai_api_no_budget Sample.throttled Sample.fill). lia. Defined.

Lemma call_openai_api_never_raises_failure_witness :
  fst (call_openai_api Sample.throttled Sample.fill Sample.messages 3
                       Sample.empty_world)
  <> Raise (Exception "Failed to call OpenAI API after multiple retries.").
Proof.
  apply (call_openai_api_never_raises_failure Sample.throttled Sample.fill
           Sample.messages 3 Sample.empty_world).
Defined.


Lemma call_openai_api_silent_on_invalid_request_witness :
  call_openai_api Cases.refused Sample.fill Sample.messages 3 Sample.empty_world
  = (Ok VNone,
     {| requests := [chat_request Sample.messages; chat_request Sample.messages;
                     chat_request Sample.messages];
        console := []; sleeps := []; disk := ∅ |}).
Proof.
  apply (call_openai_api_silent_on_invalid_request
           Cases.refused Sample.fill Sample.messages 3 Sample.empty_world).
  intros k. eexists. split; [reflexivity | vm_compute; reflexivity].
Defined.


Lemma search_seconds_finds_delay_witness :
  Text.search_seconds
    ("Rate limit reached. Please retry after " +:+ Text.str_of_N 20
     +:+ String " " EmptyString +:+ "second" +:+ "s.")
  = Some (Text.str_of_N 20) /\
  Text.int_of_digits (Text.str_of_N 20) = 20%N.
Proof.
  apply (search_seconds_finds_delay "Rate limit reached. Please retry after "
           20 " " EmptyString "s.");
    [vm_compute; reflexivity | vm_compute; reflexivity | vm_compute; lia
    | vm_compute; reflexivity | vm_compute; reflexivity].
Defined.

Lemma search_seconds_needs_digit_witness :
  Text.search_seconds "The server is overloaded for some seconds." = None.
Proof.
  apply search_seconds_needs_digit; vm_compute; reflexivity.
Defined.

Lemma url_to_filename_idempotent_witness :
  url_to_filename (url_to_filename "https://example.org/r")
  = url_to_filename "https://example.org/r" /\
  url_to_filename "my_repo" = "my_repo".
Proof.
  split.
  - apply (url_to_filename_idempotent "https://example.org/r").
  - apply (url_to_filename_idempotent "my_repo"). vm_compute. reflexivity.
Defined.

Lemma is_source_code_suffix_witness :
  exists stem ext, "src/app.py" = stem +:+ ext /\ In ext source_code_extensions.
Proof. apply is_source_code_suffix. vm_compute. reflexivity. Defined.

Lemma is_source_code_needs_dot_witness : is_source_code "build/Makefile" = false.
Proof. apply is_source_code_needs_dot. vm_compute. reflexivity. Defined.

Lemma is_source_code_accepts_witness :
  is_source_code ("src/v1.2/" +:+ "app" +:+ ".py") = true.
Proof.
  apply is_source_code_accepts;
    [discriminate | vm_compute; reflexivity | vm_compute; reflexivity |].
  simpl. tauto.
Defined.

Lemma is_source_code_basename_witness :
  is_source_code ("lib.js" +:+ "/" +:+ "LICENSE") = is_source_code "LICENSE".
Proof. apply is_source_code_basename. vm_compute. reflexivity. Defined.

Lemma main_file_none_result_witness :
  let s := {| debts := Sample.old_store; world := Sample.empty_world |} in
  let wb := snd (debtDetect Sample.healthy "key = 1"
                   (createGuard Cases.guard_rejects "key = 1")
                   (announce_file Sample.auth_py Sample.empty_world)) in
  main_file Sample.healthy Cases.guard_rejects Sample.any_file Sample.repo_url Sample.commit1
            Sample.auth_py s
  = (Raise none_not_assignable, {| debts := debts s; world := wb |}) /\
  disk wb = disk (world s).
Proof.
  apply (main_file_none_result Sample.healthy Cases.guard_rejects Sample.any_file Sample.repo_url
           Sample.commit1 Sample.auth_py _ "key = 1");
    [reflexivity | reflexivity | vm_compute; reflexivity].
Defined.

Lemma enrich_fields_witness :
  dict_get "number_of_lines" (enrich Sample.repo_url "auth.py" Sample.analysis)
  = dict_get "number_of_lines" Sample.analysis.
Proof.
  apply (proj2 (proj2 (enrich_fields Sample.repo_url "auth.py" Sample.analysis)));
    discriminate.
Defined.

Lemma main_quiet_run_witness :
  exists s,
    main Sample.healthy Sample.guard_once Sample.any_file [Sample.commit1; Cases.docs_commit]
         Sample.repo_url true Cases.resumed_world = (Ok tt, s) /\
    debts s = load_debts Sample.repo_url true Cases.resumed_world /\
    requests (world s) = requests Cases.resumed_world /\
    sleeps (world s) = sleeps Cases.resumed_world /\
    disk (world s) = disk Cases.resumed_world.
Proof.
  apply main_quiet_run.
  intros c [<-|[<-|[]]]; [left | right]; vm_compute; reflexivity.
Defined.

Lemma main_covers_commits_witness :
  already_processed
    (debts (snd (main Sample.healthy Sample.guard_once Sample.any_file
                      [Sample.commit1; Sample.commit2] Sample.repo_url false
                      Sample.empty_world)))
    Sample.commit2 = true.
Proof.
  apply (main_covers_commits Sample.healthy Sample.guard_once Sample.any_file
           [Sample.commit1; Sample.commit2] Sample.repo_url false
           Sample.empty_world).
  - vm_compute. reflexivity.
  - simpl. tauto.
  - reflexivity.
Defined.

Lemma main_rerun_idempotent_witness :
  let s := snd (main Sample.healthy Sample.guard_once Sample.any_file
                     [Sample.commit1; Sample.commit2] Sample.repo_url false
                     Sample.empty_world) in
  exists s2,
    main Sample.healthy Sample.guard_once Sample.any_file [Sample.commit1; Sample.commit2]
         Sample.repo_url true (world s) = (Ok tt, s2) /\
    debts s2 = load_debts Sample.repo_url true (world s) /\
    requests (world s2) = requests (world s) /\
    sleeps (world s2) = sleeps (world s) /\
    disk (world s2) = disk (world s).
Proof.
  apply (main_rerun_idempotent Sample.healthy Sample.guard_once Sample.any_file
           [Sample.commit1; Sample.commit2] Sample.repo_url false
           Sample.empty_world).
  vm_compute. reflexivity.
Defined.

Lemma main_only_touches_its_file_witness :
  disk (world (snd (main Sample.healthy Sample.guard_once Sample.any_file
                         [Sample.commit1; Sample.commit2] Sample.repo_url false
                         Cases.resumed_world))) !! "notes.json"
  = disk Cases.resumed_world !! "notes.json".
Proof.
  apply (main_only_touches_its_file Sample.healthy Sample.guard_once
           Sample.any_file [Sample.commit1; Sample.commit2] Sample.repo_url
           false Cases.resumed_world).
  vm_compute. discriminate.
Defined.

Lemma main_keeps_other_entries_witness :
  debts (snd (main Sample.healthy Sample.guard_once Sample.any_file [Sample.commit2]
                   Sample.repo_url true Cases.resumed_world)) !! "c1"
  = load_debts Sample.repo_url true Cases.resumed_world !! "c1".
Proof.
  apply main_keeps_other_entries.
  intros c [<-|[]]. discriminate.
Defined.
